(** * FPVALIDATOR: the Go source-convention linter of [helpers.go] and [main.go]

  A shallow embedding of the linter's rule engine.  Go strings are byte
  sequences, modelled by [string] (a list of 8-bit [ascii]); the syntax
  tree delivered by [go/parser] is an inductive type carrying exactly the
  fields the rules read; the diagnostics slice [*errs] is threaded
  explicitly; a nil dereference inside [ast.Inspect] is a [None] result. *)

From Stdlib Require Import ZArith Ascii String List Bool Lia DecimalString.
From stdpp Require Import base option list strings gmap.
From Stdlib Require DecimalPos DecimalZ.

Set Warnings "-register-all".
Open Scope string_scope.
Open Scope list_scope.

(** ** The [strings] package, on bytes *)

Module GoStrings.

Definition byte (c : ascii) : nat := nat_of_ascii c.

(** The double quote, byte 34. *)
Definition dquote : ascii := ascii_of_nat 34.

Definition isLowerByte (c : ascii) : bool :=
  (97 <=? byte c)%nat && (byte c <=? 122)%nat.

Definition isUpperByte (c : ascii) : bool :=
  (65 <=? byte c)%nat && (byte c <=? 90)%nat.

Definition isDigitByte (c : ascii) : bool :=
  (48 <=? byte c)%nat && (byte c <=? 57)%nat.

Definition isLetterByte (c : ascii) : bool := isLowerByte c || isUpperByte c.

(** [c < utf8.RuneSelf] *)
Definition isASCII (c : ascii) : bool := (byte c <? 128)%nat.

Definition upperByte (c : ascii) : ascii :=
  if isLowerByte c then ascii_of_nat (byte c - 32) else c.

Definition lowerByte (c : ascii) : ascii :=
  if isUpperByte c then ascii_of_nat (byte c + 32) else c.

Fixpoint allASCII (s : string) : bool :=
  match s with
  | EmptyString => true
  | String c t => isASCII c && allASCII t
  end.

Fixpoint mapBytes (f : ascii -> ascii) (s : string) : string :=
  match s with
  | EmptyString => EmptyString
  | String c t => String (f c) (mapBytes f t)
  end.

(** [strings.HasPrefix(s, p)] *)
Fixpoint HasPrefix (s p : string) {struct p} : bool :=
  match p, s with
  | EmptyString, _ => true
  | String _ _, EmptyString => false
  | String b p', String a s' => Ascii.eqb a b && HasPrefix s' p'
  end.

(** [strings.HasSuffix(s, suf)]: some tail of [s] is [suf]. *)
Fixpoint HasSuffix (s suf : string) : bool :=
  String.eqb s suf
  || match s with
     | EmptyString => false
     | String _ t => HasSuffix t suf
     end.

(** [strings.Contains(s, sub)] *)
Fixpoint Contains (s sub : string) : bool :=
  HasPrefix s sub
  || match s with
     | EmptyString => false
     | String _ t => Contains t sub
     end.

Fixpoint rev (s : string) : string :=
  match s with
  | EmptyString => EmptyString
  | String c t => rev t +:+ String c EmptyString
  end.

Definition bytes (l : list nat) : string :=
  string_of_list_ascii (map ascii_of_nat l).

(** The six ASCII members of [unicode.IsSpace]. *)
Definition isAsciiSpace (c : ascii) : bool :=
  ((9 <=? byte c)%nat && (byte c <=? 13)%nat) || (byte c =? 32)%nat.

(** The UTF-8 encodings of the other members of [unicode.IsSpace]:
    U+0085, U+00A0, U+1680, U+2000..U+200A, U+2028, U+2029, U+202F,
    U+205F and U+3000. *)
Definition wideSpaces : list string :=
  map bytes
    [ [194; 133]; [194; 160]; [225; 154; 128];
      [226; 128; 128]; [226; 128; 129]; [226; 128; 130]; [226; 128; 131];
      [226; 128; 132]; [226; 128; 133]; [226; 128; 134]; [226; 128; 135];
      [226; 128; 136]; [226; 128; 137]; [226; 128; 138];
      [226; 128; 168]; [226; 128; 169]; [226; 128; 175];
      [226; 129; 159]; [227; 128; 128] ].

Fixpoint dropBytes (n : nat) (s : string) : string :=
  match n, s with
  | S n', String _ t => dropBytes n' t
  | _, _ => s
  end.

(** The rest of [s] behind the first of [seqs] that [s] starts with. *)
Fixpoint stripOneOf (seqs : list string) (s : string) : option string :=
  match seqs with
  | [] => None
  | w :: ws =>
      if HasPrefix s w then Some (dropBytes (String.length w) s)
      else stripOneOf ws s
  end.

(** One white-space rune off the front of [s], if [s] starts with one.
    A byte that does not start a valid encoding decodes to
    [utf8.RuneError], which is not a space. *)
Definition stripSpace (wide : list string) (s : string) : option string :=
  match s with
  | EmptyString => None
  | String c t => if isAsciiSpace c then Some t else stripOneOf wide s
  end.

Fixpoint trimSpaces (wide : list string) (fuel : nat) (s : string) : string :=
  match fuel with
  | O => s
  | S fuel' =>
      match stripSpace wide s with
      | Some t => trimSpaces wide fuel' t
      | None => s
      end
  end.

(** [strings.TrimLeftFunc(s, unicode.IsSpace)] *)
Definition TrimLeftSpace (s : string) : string :=
  trimSpaces wideSpaces (String.length s) s.

(** [strings.TrimRightFunc(s, unicode.IsSpace)]: the same scan from the
    end, on the reversed bytes. *)
Definition TrimRightSpace (s : string) : string :=
  rev (trimSpaces (map rev wideSpaces) (String.length s) (rev s)).

(** [strings.TrimSpace(s)] *)
Definition TrimSpace (s : string) : string :=
  TrimRightSpace (TrimLeftSpace s).

(** U+FFFD, what [strings.Map] writes for a byte that is not valid UTF-8. *)
Definition runeError : string := bytes [239; 191; 189].

(** [strings.ToUpper] of a one-byte string [s[:1]]: an ASCII byte is
    upper-cased in place; any other single byte is invalid UTF-8 and comes
    back as U+FFFD. *)
Definition ToUpperByte (c : ascii) : string :=
  if isASCII c then String (upperByte c) EmptyString else runeError.

(** [s[:1]] of a non-empty [s]. *)
Definition firstByte (s : string) : option ascii :=
  match s with
  | EmptyString => None
  | String c _ => Some c
  end.

End GoStrings.

(** ** [go/token]: positions and file sets *)

Module GoToken.

Definition Pos := Z.
Definition NoPos : Pos := 0%Z.

(** A file registered in a file set: its range of positions and the line
    its table gives for an offset. *)
Record File := {
  fileBase : Z;
  fileSize : Z;
  fileLine : Z -> Z
}.

Definition FileSet := list File.

(** [token.NewFileSet()]: no file registered yet. *)
Definition NewFileSet : FileSet := [].

(** [s.file(p)]: the file whose range holds [p]. *)
Definition fileOf (s : FileSet) (p : Pos) : option File :=
  List.find (fun f => (fileBase f <=? p)%Z && (p <=? fileBase f + fileSize f)%Z) s.

(** [s.Position(p).Line]; the zero [Position] has line 0. *)
Definition PositionLine (s : FileSet) (p : Pos) : Z :=
  if (p =? NoPos)%Z then 0%Z
  else match fileOf s p with
       | Some f => fileLine f (p - fileBase f)%Z
       | None => 0%Z
       end.

End GoToken.

(** ** [go/ast]: the part of the syntax tree the rules read *)

Module GoAst.
Import GoToken.

Record Ident := { Name : string; NamePos : Pos }.

Inductive Token := IMPORT | CONST | TYPE | VAR.

(** [OtherExpr] and [OtherStmt] stand for the node kinds no rule looks at
    (binary and unary expressions, index expressions, if, for, return,
    ...); they keep their children, which [ast.Inspect] visits. *)
Inductive Expr :=
| IdentExpr (id : Ident)
| BasicLit (value : string)
| StarExpr (x : Expr)
| SelectorExpr (x : Expr) (sel : Ident)
| StructType (fields : list Field)
| ArrayType (len : option Expr) (elt : Expr)
| CompositeLit (typ : option Expr) (elts : list Expr)
| CallExpr (fn : Expr) (args : list Expr)
| FuncLit (params results : list Field) (body : list Stmt)
| OtherExpr (children : list Expr)
with Stmt :=
| DeclStmt (tok : Token) (specs : list Spec)
| AssignStmt (lhs rhs : list Expr)
| RangeStmt (key value : option Expr) (x : Expr) (body : list Stmt)
| ExprStmt (x : Expr)
| BlockStmt (list : list Stmt)
| OtherStmt (exprs : list Expr) (stmts : list Stmt)
with Spec :=
| ImportSpec (path : string)
| ValueSpec (names : list Ident) (typ : option Expr) (values : list Expr)
| TypeSpec (name : Ident) (typ : Expr)
with Field :=
| mkField (names : list Ident) (typ : Expr).

Definition Names (f : Field) : list Ident := let (names, _) := f in names.
Definition Type_ (f : Field) : Expr := let (_, typ) := f in typ.

(** [Doc] is [fn.Doc.Text()] when [fn.Doc] is not nil; [FuncPos] is
    [fn.Pos()]; [Params] is [fn.Type.Params]; the parser never leaves
    [fn.Type] nil, and leaves [Body] nil for a declaration without body. *)
Record FuncDecl := {
  Doc : option string;
  Recv : option (list Field);
  FuncName : Ident;
  FuncPos : Pos;
  Params : option (list Field);
  Body : option (list Stmt)
}.

Inductive Decl :=
| FuncDeclD (fn : FuncDecl)
| GenDecl (tok : Token) (specs : list Spec).

(** An entry of [f.Scope.Objects], with [obj.Pos()]. *)
Record Object := { ObjName : string; ObjPos : Pos }.

Record File := {
  Decls : list Decl;
  ScopeObjects : gmap string Object
}.

(** The nodes a visitor of this development can tell apart. *)
Inductive Node :=
| NodeExpr (e : Expr)
| NodeStmt (s : Stmt)
| NodeSpec (sp : Spec).

Definition anyOpt {A} (f : A -> bool) (o : option A) : bool :=
  match o with
  | Some a => f a
  | None => false
  end.

(** [ast.Inspect(root, f)] with an [f] that always returns true visits
    every node below [root]; [anyStmt p root] tells whether [p] holds of
    one of them. *)
Fixpoint anyExpr (p : Node -> bool) (e : Expr) {struct e} : bool :=
  p (NodeExpr e)
  || match e with
     | IdentExpr _ | BasicLit _ => false
     | StarExpr x => anyExpr p x
     | SelectorExpr x sel => anyExpr p x || p (NodeExpr (IdentExpr sel))
     | StructType fields => existsb (anyField p) fields
     | ArrayType len elt => anyOpt (anyExpr p) len || anyExpr p elt
     | CompositeLit typ elts => anyOpt (anyExpr p) typ || existsb (anyExpr p) elts
     | CallExpr fn args => anyExpr p fn || existsb (anyExpr p) args
     | FuncLit params results body =>
         existsb (anyField p) params || existsb (anyField p) results
         || existsb (anyStmt p) body
     | OtherExpr children => existsb (anyExpr p) children
     end
with anyStmt (p : Node -> bool) (s : Stmt) {struct s} : bool :=
  p (NodeStmt s)
  || match s with
     | DeclStmt _ specs => existsb (anySpec p) specs
     | AssignStmt lhs rhs => existsb (anyExpr p) lhs || existsb (anyExpr p) rhs
     | RangeStmt key value x body =>
         anyOpt (anyExpr p) key || anyOpt (anyExpr p) value || anyExpr p x
         || existsb (anyStmt p) body
     | ExprStmt x => anyExpr p x
     | BlockStmt l => existsb (anyStmt p) l
     | OtherStmt exprs stmts => existsb (anyExpr p) exprs || existsb (anyStmt p) stmts
     end
with anySpec (p : Node -> bool) (sp : Spec) {struct sp} : bool :=
  p (NodeSpec sp)
  || match sp with
     | ImportSpec _ => false
     | ValueSpec names typ values =>
         existsb (fun i => p (NodeExpr (IdentExpr i))) names
         || anyOpt (anyExpr p) typ || existsb (anyExpr p) values
     | TypeSpec name typ => p (NodeExpr (IdentExpr name)) || anyExpr p typ
     end
with anyField (p : Node -> bool) (f : Field) {struct f} : bool :=
  match f with
  | mkField names typ =>
      existsb (fun i => p (NodeExpr (IdentExpr i))) names || anyExpr p typ
  end.

End GoAst.

(** ** The linter of [helpers.go] *)

Import GoStrings GoToken GoAst.

(** [%d] of [fmt.Sprintf] *)
Definition fmtInt (z : Z) : string := NilZero.string_of_int (Z.to_int z).

(** [%q] of [fmt.Sprintf] on an identifier: its bytes are letters, digits
    and underscores, which [strconv.Quote] leaves unescaped. *)
Definition fmtQuoted (s : string) : string :=
  String dquote (s +:+ String dquote EmptyString).

(** The ["%s:%d: "] every located diagnostic starts with. *)
Definition located (path : string) (line : Z) (msg : string) : string :=
  path +:+ ":" +:+ fmtInt line +:+ ": " +:+ msg.

Definition nonEmpty (s : string) : bool :=
  match s with
  | EmptyString => false
  | String _ _ => true
  end.

(** [isAllowedParam] skips [*testing.T] and [*ondatra.DUTDevice]. *)
Definition isAllowedParam (expr : Expr) : bool :=
  match expr with
  | StarExpr (SelectorExpr _ sel) =>
      String.eqb (Name sel) "T" || String.eqb (Name sel) "DUTDevice"
  | _ => false
  end.

Definition allParamsAllowed (params : list Field) : bool :=
  forallb (fun param => isAllowedParam (Type_ param)) params.

Definition isStructType (expr : Expr) : bool :=
  match expr with
  | StructType _ => true
  | _ => false
  end.

Definition isPointerToStruct (expr : Expr) : bool :=
  match expr with
  | StarExpr (StructType _) => true
  | _ => false
  end.

(** The counting loop of [checkStructParameterUsage], one step per entry of
    [fn.Type.Params.List]. *)
Fixpoint nonStructCount (params : list Field) : nat :=
  match params with
  | [] => 0
  | param :: rest =>
      if isAllowedParam (Type_ param) then nonStructCount rest
      else if negb (isStructType (Type_ param)) && negb (isPointerToStruct (Type_ param))
           then S (nonStructCount rest)
           else nonStructCount rest
  end.

Definition structParamMsg (path : string) (line : Z) (name : string) : string :=
  located path line
    ("function " +:+ name +:+ " has multiple parameters, consider using a single config struct").

Definition checkStructParameterUsage (path : string) (fn : FuncDecl) (fs : FileSet)
  : list string :=
  let line := PositionLine fs (FuncPos fn) in
  match Params fn with
  | None => []
  | Some params =>
      if (length params =? 0)%nat then []
      else if (length params <=? 2)%nat && allParamsAllowed params then []
      else if (1 <? nonStructCount params)%nat
           then [structParamMsg path line (Name (FuncName fn))]
           else []
  end.

(** [extractStringLiteral]: the first submatch of the regular expression
    quote, [(.*?)], quote.  [untilQuote] is the lazy [.*?] up to the closing
    quote; the dot does not match a newline. *)
Fixpoint untilQuote (s : string) : option string :=
  match s with
  | EmptyString => None
  | String c t =>
      if Ascii.eqb c dquote then Some EmptyString
      else if Ascii.eqb c (ascii_of_nat 10) then None
      else option_map (String c) (untilQuote t)
  end.

Fixpoint extractStringLiteral (line : string) : string :=
  match line with
  | EmptyString => EmptyString
  | String c t =>
      if Ascii.eqb c dquote then
        match untilQuote t with
        | Some m => m
        | None => extractStringLiteral t
        end
      else extractStringLiteral t
  end.

(** The MixedCaps regular expressions. *)
Definition isAlnumByte (c : ascii) : bool :=
  isUpperByte c || isLowerByte c || isDigitByte c.

Fixpoint allBytes (p : ascii -> bool) (s : string) : bool :=
  match s with
  | EmptyString => true
  | String c t => p c && allBytes p t
  end.

Definition exportedMixedCaps (name : string) : bool :=
  match name with
  | EmptyString => false
  | String c t => isUpperByte c && allBytes isAlnumByte t
  end.

Definition unexportedMixedCaps (name : string) : bool :=
  match name with
  | EmptyString => false
  | String c t => isLowerByte c && allBytes isAlnumByte t
  end.

Definition snakeCase (name : string) : bool := Contains name "_".

Definition badAcronyms (name : string) : bool :=
  Contains name "Id" || Contains name "Url" || Contains name "Http".

(** *** [scanFileForPatterns]: the line-oriented rules *)

(** The token sequence quote, space, plus, space, quote. *)
Definition concatToken : string :=
  String dquote (" + " +:+ String dquote EmptyString).

Definition sleepMsg (path : string) (lineNo : Z) : string :=
  located path lineNo "avoid time.Sleep, use gnmi.Watch".

Definition cfgpluginMsg (path : string) (lineNo : Z) : string :=
  located path lineNo "cfgplugin function should return gnmi Batch/SetRequest".

Definition concatMsg (path : string) (lineNo : Z) : string :=
  located path lineNo "avoid piecing strings with '+', use fmt.Sprintf or strings.Builder".

Definition capitalizedMsg (path : string) (lineNo : Z) : string :=
  located path lineNo "error string should not be capitalized".

Definition periodMsg (path : string) (lineNo : Z) : string :=
  located path lineNo "error string should not end with '.'".

Definition logArgsMsg (path : string) (lineNo : Z) (trimmed : string) : string :=
  located path lineNo
    ("t.Log() should not use multiple arguments: " +:+ trimmed +:+ ", instead use t.Logf()").

Definition logfArgsMsg (path : string) (lineNo : Z) (trimmed : string) : string :=
  located path lineNo
    ("t.Logf() must have arguments after format string: " +:+ trimmed +:+ ", instead use t.Log()").

(** The condition [strings.HasPrefix(msg, strings.ToUpper(msg[:1]))] on a
    non-empty [msg]. *)
Definition startsWithOwnUpper (msg : string) : bool :=
  match msg with
  | EmptyString => false
  | String c _ => HasPrefix msg (ToUpperByte c)
  end.

(** The block "ErrorStrings: idiomatic error strings" of the scan loop. *)
Definition errorStringRule (path : string) (lineNo : Z) (line : string) : list string :=
  if Contains line "t.Errorf(" || Contains line "t.Error(" || Contains line "fmt.Errorf("
  then
    let msg := extractStringLiteral line in
    if nonEmpty msg then
      (if startsWithOwnUpper msg then [capitalizedMsg path lineNo] else [])
      ++ (if HasSuffix msg "." then [periodMsg path lineNo] else [])
    else []
  else [].

Fixpoint splitLast (s : string) : option (string * ascii) :=
  match s with
  | EmptyString => None
  | String c t =>
      match splitLast t with
      | None => Some (EmptyString, c)
      | Some (init, last) => Some (String c init, last)
      end
  end.

(** The submatch when the whole of [trimmed] matches the anchored
    expression: the literal [open] (t.Log or t.Logf with its parenthesis),
    any bytes but a newline, and a closing parenthesis at the very end. *)
Definition matchCall (open trimmed : string) : option string :=
  if HasPrefix trimmed open then
    match splitLast (dropBytes (String.length open) trimmed) with
    | Some (args, last) =>
        if Ascii.eqb last ")" && negb (Contains args (String (ascii_of_nat 10) EmptyString))
        then Some args else None
    | None => None
    end
  else None.

(** The loop looking for a comma outside quotes. *)
Fixpoint commaOutsideQuotes (inQuotes : bool) (args : string) : bool :=
  match args with
  | EmptyString => false
  | String r t =>
      if Ascii.eqb r dquote then commaOutsideQuotes (negb inQuotes) t
      else if Ascii.eqb r "," && negb inQuotes then true
      else commaOutsideQuotes inQuotes t
  end.

(** The loop splitting at top-level commas; [current] is [args[start:i]]. *)
Fixpoint splitTopLevel (inQuotes : bool) (current args : string) : list string :=
  match args with
  | EmptyString => [TrimSpace current]
  | String r t =>
      if Ascii.eqb r dquote
      then splitTopLevel (negb inQuotes) (current +:+ String r EmptyString) t
      else if Ascii.eqb r "," && negb inQuotes
           then TrimSpace current :: splitTopLevel inQuotes EmptyString t
           else splitTopLevel inQuotes (current +:+ String r EmptyString) t
  end.

(** The block "t.Log() / t.Logf() checks". *)
Definition logRule (path : string) (lineNo : Z) (line : string) : list string :=
  if HasSuffix path "_test.go" then
    let trimmed := TrimSpace line in
    (match matchCall "t.Log(" trimmed with
     | Some args =>
         if commaOutsideQuotes false args then [logArgsMsg path lineNo trimmed] else []
     | None => []
     end)
    ++ (match matchCall "t.Logf(" trimmed with
        | Some args =>
            if (length (splitTopLevel false EmptyString args) <? 2)%nat
            then [logfArgsMsg path lineNo trimmed] else []
        | None => []
        end)
  else [].

(** One turn of the scan loop. *)
Definition scanLine (path : string) (lineNo : Z) (line : string) : list string :=
  (if Contains line "time.Sleep(" then [sleepMsg path lineNo] else [])
  ++ (if Contains path "cfgplugins" && Contains line "func" && Contains line "{"
      then if negb (Contains line "gnmi.SetRequest") && negb (Contains line "gnmi.Batch")
           then [cfgpluginMsg path lineNo] else []
      else [])
  ++ (if Contains line concatToken then [concatMsg path lineNo] else [])
  ++ errorStringRule path lineNo line
  ++ logRule path lineNo line.

Fixpoint scanLines (path : string) (lineNo : Z) (lines : list string) : list string :=
  match lines with
  | [] => []
  | line :: rest => scanLine path lineNo line ++ scanLines path (lineNo + 1)%Z rest
  end.

(** [scanFileForPatterns(path)]; [lines] are the lines [bufio.Scanner]
    delivers for the file at [path]. *)
Definition scanFileForPatterns (path : string) (lines : list string) : list string :=
  scanLines path 1%Z lines.

(** *** [validateTestFileStructure] *)

Definition missingTestMainMsg (path : string) : string :=
  path +:+ ": missing TestMain function".

Definition noTestFuncsMsg (path : string) : string :=
  path +:+ ": no test functions found".

Definition multipleTestsMsg (path : string) : string :=
  path +:+ ": multiple top-level test functions found; please follow table-driven approach ref: https://go.dev/wiki/TableDrivenTests".

Definition notTableDrivenMsg (path name : string) : string :=
  path +:+ ": test function " +:+ name +:+ " does not follow table-driven test pattern. Please follow table driven approach ref: https://go.dev/wiki/TableDrivenTests".

(** The parameter type [*testing.M] of the hook. *)
Definition isTestingM (expr : Expr) : bool :=
  match expr with
  | StarExpr (SelectorExpr (IdentExpr pkgIdent) sel) =>
      String.eqb (Name pkgIdent) "testing" && String.eqb (Name sel) "M"
  | _ => false
  end.

(** The first loop: [hasTestMain] and [testFuncs] after the declarations. *)
Fixpoint collectTests (decls : list Decl) (hasTestMain : bool) (testFuncs : list FuncDecl)
  : bool * list FuncDecl :=
  match decls with
  | [] => (hasTestMain, testFuncs)
  | FuncDeclD fn :: rest =>
      match Body fn with
      | None => collectTests rest hasTestMain testFuncs
      | Some _ =>
          match Params fn with
          | Some [param] =>
              if String.eqb (Name (FuncName fn)) "TestMain"
              then collectTests rest (isTestingM (Type_ param) || hasTestMain) testFuncs
              else if HasPrefix (Name (FuncName fn)) "Test"
                   then collectTests rest hasTestMain (testFuncs ++ [fn])
                   else collectTests rest hasTestMain testFuncs
          | _ =>
              if HasPrefix (Name (FuncName fn)) "Test"
              then collectTests rest hasTestMain (testFuncs ++ [fn])
              else collectTests rest hasTestMain testFuncs
          end
      end
  | GenDecl _ _ :: rest => collectTests rest hasTestMain testFuncs
  end.

(** The type of a composite literal that counts as a table. *)
Definition isTableLit (e : Expr) : bool :=
  match e with
  | CompositeLit (Some (ArrayType _ _)) _
  | CompositeLit (Some (IdentExpr _)) _
  | CompositeLit (Some (SelectorExpr _ _)) _ => true
  | _ => false
  end.

Definition declaresSlice (sp : Spec) : bool :=
  match sp with
  | ValueSpec _ (Some (ArrayType _ _)) _ => true
  | ValueSpec _ (Some _) _ => false
  | ValueSpec _ None values => existsb isTableLit values
  | _ => false
  end.

(** The nodes at which the visitor sets [hasSliceDecl]. *)
Definition setsSliceDecl (n : Node) : bool :=
  match n with
  | NodeStmt (DeclStmt _ specs) => existsb declaresSlice specs
  | NodeStmt (AssignStmt _ rhs) => existsb isTableLit rhs
  | _ => false
  end.

(** The nodes at which the visitor sets [hasForLoop]. *)
Definition setsForLoop (n : Node) : bool :=
  match n with
  | NodeStmt (RangeStmt _ _ _ _) => true
  | _ => false
  end.

(** The check of [mainTest]; walking a nil body would dereference nil. *)
Definition tableDrivenCheck (path : string) (mainTest : FuncDecl) : option (list string) :=
  match Body mainTest with
  | None => None
  | Some body =>
      let hasSliceDecl := anyStmt setsSliceDecl (BlockStmt body) in
      let hasForLoop := anyStmt setsForLoop (BlockStmt body) in
      if negb (hasSliceDecl && hasForLoop)
      then Some [notTableDrivenMsg path (Name (FuncName mainTest))]
      else Some []
  end.

Definition validateTestFileStructure (path : string) (f : File) : option (list string) :=
  let '(hasTestMain, testFuncs) := collectTests (Decls f) false [] in
  let e1 := if negb hasTestMain then [missingTestMainMsg path] else [] in
  match testFuncs with
  | [] => Some (e1 ++ [noTestFuncsMsg path])
  | mainTest :: others =>
      let e2 := if (1 <? length testFuncs)%nat then [multipleTestsMsg path] else [] in
      shape ← tableDrivenCheck path mainTest;
      Some (e1 ++ e2 ++ shape)
  end.

(** *** [checkMixedCaps] and [validateGoFile] *)

Section Linter.

Set Default Proof Using "Type".

(** What the rules take from the Unicode tables and from [fmt]:
    [unicodeIsUpper name] is [unicode.IsUpper] of the first rune of a name
    that starts with a byte outside ASCII; [unicodeToLower s] is
    [strings.ToLower s] for an [s] holding such a byte; [exprString e] is
    what the verb [%s] prints for an expression that is not an identifier. *)
Variable unicodeIsUpper : string -> bool.
Variable unicodeToLower : string -> string.
Variable exprString : Expr -> string.

(** [ast.IsExported(name)] *)
Definition IsExported (name : string) : bool :=
  match name with
  | EmptyString => false
  | String c _ => if isASCII c then isUpperByte c else unicodeIsUpper name
  end.

(** [strings.ToLower(s)] *)
Definition ToLower (s : string) : string :=
  if allASCII s then mapBytes lowerByte s else unicodeToLower s.

(** [fmt.Sprintf("%s", vs.Type)]; an [*ast.Ident] prints its name. *)
Definition typeString (e : Expr) : string :=
  match e with
  | IdentExpr id => Name id
  | _ => exprString e
  end.

Definition snakeCaseMsg (path : string) (line : Z) (kind name : string) : string :=
  located path line (kind +:+ " name " +:+ fmtQuoted name +:+ " should not use snake_case").

Definition mixedCapsMsg (path : string) (line : Z) (kind name caps : string) : string :=
  located path line (kind +:+ " name " +:+ fmtQuoted name +:+ " should use " +:+ caps).

Definition funcAcronymMsg (path : string) (line : Z) (name : string) : string :=
  located path line
    ("function name " +:+ fmtQuoted name +:+ " has mis-cased acronym (use ID/URL/HTTP)").

Definition acronymMsg (path : string) (line : Z) (kind name : string) : string :=
  located path line (kind +:+ " name " +:+ fmtQuoted name +:+ " has mis-cased acronym").

(** The branch of [checkMixedCaps] for a function declaration. *)
Definition mixedCapsFunc (path : string) (fset : FileSet) (fn : FuncDecl) : list string :=
  let name := Name (FuncName fn) in
  let line := PositionLine fset (FuncPos fn) in
  (if snakeCase name then [snakeCaseMsg path line "function" name] else [])
  ++ (if IsExported name
      then if negb (exportedMixedCaps name)
           then [mixedCapsMsg path line "exported function" name "MixedCaps"] else []
      else if negb (unexportedMixedCaps name)
           then [mixedCapsMsg path line "unexported function" name "mixedCaps"] else [])
  ++ (if badAcronyms name then [funcAcronymMsg path line name] else []).

(** The checks of a type name and of a variable name; [ts.Pos()] and
    [ident.Pos()] are the position of the name. *)
Definition mixedCapsName (path : string) (fset : FileSet) (kind exportedKind : string)
  (ident : Ident) : list string :=
  let name := Name ident in
  let line := PositionLine fset (NamePos ident) in
  (if snakeCase name then [snakeCaseMsg path line kind name] else [])
  ++ (if IsExported name
      then if negb (exportedMixedCaps name)
           then [mixedCapsMsg path line exportedKind name "MixedCaps"] else []
      else [])
  ++ (if badAcronyms name then [acronymMsg path line kind name] else []).

Definition mixedCapsSpec (path : string) (fset : FileSet) (spec : Spec) : list string :=
  match spec with
  | TypeSpec name _ => mixedCapsName path fset "type" "exported type" name
  | ValueSpec names _ _ =>
      flat_map (mixedCapsName path fset "variable" "exported var") names
  | ImportSpec _ => []
  end.

Definition mixedCapsDecl (path : string) (fset : FileSet) (decl : Decl) : list string :=
  match decl with
  | FuncDeclD fn => mixedCapsFunc path fset fn
  | GenDecl _ specs => flat_map (mixedCapsSpec path fset) specs
  end.

(** [checkMixedCaps]: positions are looked up in a file set of its own. *)
Definition checkMixedCaps (path : string) (f : File) : list string :=
  let fset := NewFileSet in
  flat_map (mixedCapsDecl path fset) (Decls f).

(** **** The rules of [validateGoFile] on one function declaration *)

Definition mustHaveDocMsg (path : string) (line : Z) (name : string) : string :=
  located path line ("exported function " +:+ name +:+ " must have doc comment").

Definition docPeriodMsg (path : string) (line : Z) : string :=
  located path line "function comment should end with '.'".

Definition getPrefixMsg (path : string) (line : Z) (name : string) : string :=
  located path line ("function " +:+ name +:+ " should not use Get prefix").

Definition helperMsg (path : string) (line : Z) (name tName : string) : string :=
  located path line
    ("test helper function " +:+ name +:+ " should call " +:+ tName +:+ ".Helper()").

Definition lowercaseMsg (path : string) (line : Z) (name : string) : string :=
  located path line ("test function " +:+ name +:+ " must start with lowercase letter").

(** Lines 31 to 40: the exported-doc rule. *)
Definition docRule (path : string) (line : Z) (fn : FuncDecl) : list string :=
  let name := Name (FuncName fn) in
  if IsExported name && negb (HasPrefix name "Test") then
    match Doc fn with
    | None => [mustHaveDocMsg path line name]
    | Some doc =>
        let text := TrimSpace doc in
        if negb (HasSuffix text ".") then [docPeriodMsg path line] else []
    end
  else [].

(** Lines 42 to 44. *)
Definition getPrefixRule (path : string) (line : Z) (fn : FuncDecl) : list string :=
  if HasPrefix (Name (FuncName fn)) "Get"
  then [getPrefixMsg path line (Name (FuncName fn))] else [].

(** The loop looking for the name of the [*testing.T] parameter. *)
Fixpoint findTName (params : list Field) : string :=
  match params with
  | [] => EmptyString
  | param :: rest =>
      match Type_ param with
      | StarExpr (SelectorExpr (IdentExpr pkgIdent) sel) =>
          if String.eqb (Name pkgIdent) "testing" && String.eqb (Name sel) "T" then
            match Names param with
            | first :: _ => Name first
            | [] => findTName rest
            end
          else findTName rest
      | _ => findTName rest
      end
  end.

Definition isHelperCall (tName : string) (n : Node) : bool :=
  match n with
  | NodeExpr (CallExpr (SelectorExpr (IdentExpr ident) sel) _) =>
      String.eqb (Name ident) tName && String.eqb (Name sel) "Helper"
  | _ => false
  end.

Definition isHelperCandidate (path : string) (fn : FuncDecl) : bool :=
  HasSuffix path "_test.go"
  && match Recv fn with None => true | Some _ => false end
  && negb (HasPrefix (Name (FuncName fn)) "Test").

(** Lines 46 to 86; [ast.Inspect] of a nil body dereferences nil. *)
Definition helperRule (path : string) (line : Z) (fn : FuncDecl) : option (list string) :=
  if isHelperCandidate path fn then
    let tName := match Params fn with
                 | Some params => findTName params
                 | None => EmptyString
                 end in
    if nonEmpty tName then
      match Body fn with
      | None => None
      | Some body =>
          if anyStmt (isHelperCall tName) (BlockStmt body) then Some []
          else Some [helperMsg path line (Name (FuncName fn)) tName]
      end
    else Some []
  else Some [].

(** Lines 88 to 95. *)
Definition lowercaseRule (path : string) (line : Z) (fn : FuncDecl) : list string :=
  if isHelperCandidate path fn then
    match Name (FuncName fn) with
    | EmptyString => []
    | String c _ =>
        if String.eqb (ToUpperByte c) (String c EmptyString)
        then [lowercaseMsg path line (Name (FuncName fn))] else []
    end
  else [].

(** The body of the first loop for one [*ast.FuncDecl]. *)
Definition funcDeclRules (path : string) (fs : FileSet) (fn : FuncDecl)
  : option (list string) :=
  let line := PositionLine fs (FuncPos fn) in
  helper ← helperRule path line fn;
  Some (docRule path line fn ++ getPrefixRule path line fn ++ helper
        ++ lowercaseRule path line fn ++ checkStructParameterUsage path fn fs).

Fixpoint funcDeclLoop (path : string) (fs : FileSet) (decls : list Decl)
  : option (list string) :=
  match decls with
  | [] => Some []
  | FuncDeclD fn :: rest =>
      here ← funcDeclRules path fs fn;
      more ← funcDeclLoop path fs rest;
      Some (here ++ more)
  | GenDecl _ _ :: rest => funcDeclLoop path fs rest
  end.

(** **** The loop over [f.Scope.Objects] *)

Definition underscoreMsg (path : string) (line : Z) (name : string) : string :=
  located path line ("identifier " +:+ name +:+ " should not contain underscores").

Definition underscoreRule (path : string) (fs : FileSet) (obj : Object) : list string :=
  if Contains (ObjName obj) "_"
  then [underscoreMsg path (PositionLine fs (ObjPos obj)) (ObjName obj)] else [].

(** [order] is a sequence in which [range] may deliver the entries of the
    map: Go leaves the iteration order of a map unspecified. *)
Definition rangeOrder (objects : gmap string Object) (order : list Object) : Prop :=
  order ≡ₚ (map_to_list objects).*2.

Definition scopeLoop (path : string) (fs : FileSet) (order : list Object) : list string :=
  flat_map (underscoreRule path fs) order.

(** **** The loop over the [var] declarations *)

Definition repeatsTypeMsg (path : string) (line : Z) (name typeName : string) : string :=
  located path line ("variable " +:+ name +:+ " repeats its type " +:+ typeName +:+ " in name").

Definition repeatsTypeName (path : string) (fs : FileSet) (typeName : string)
  (name : Ident) : list string :=
  if Contains (ToLower (Name name)) (ToLower typeName)
  then [repeatsTypeMsg path (PositionLine fs (NamePos name)) (Name name) typeName]
  else [].

Definition repeatsTypeSpec (path : string) (fs : FileSet) (spec : Spec) : list string :=
  match spec with
  | ValueSpec names (Some type) _ =>
      flat_map (repeatsTypeName path fs (typeString type)) names
  | _ => []
  end.

Definition repeatsTypeDecl (path : string) (fs : FileSet) (decl : Decl) : list string :=
  match decl with
  | GenDecl VAR specs => flat_map (repeatsTypeSpec path fs) specs
  | _ => []
  end.

(** **** The file as [validateGoFile] meets it *)

(** [Parse] is what [parser.ParseFile] makes of the file at [Path]: [None]
    when it returns an error, else the file set it filled and the tree;
    [Lines] are the lines a [bufio.Scanner] reads from the same file. *)
Record SourceFile := {
  Path : string;
  Parse : option (FileSet * File);
  Lines : list string
}.

Definition parseFailureMsg (path : string) : string := path +:+ ": failed parsing".

(** [validateGoFile(path, errs)]: the new contents of [*errs], or [None]
    when the call panics.  [order] is the order in which this call ranges
    over [f.Scope.Objects]. *)
Definition validateGoFile (sf : SourceFile) (order : list Object) (errs : list string)
  : option (list string) :=
  let path := Path sf in
  match Parse sf with
  | None => Some (errs ++ [parseFailureMsg path])
  | Some (fs, f) =>
      structure ← (if HasSuffix path "_test.go"
                   then validateTestFileStructure path f else Some []);
      funcs ← funcDeclLoop path fs (Decls f);
      Some (errs ++ structure ++ funcs
            ++ scopeLoop path fs order
            ++ flat_map (repeatsTypeDecl path fs) (Decls f)
            ++ checkMixedCaps path f
            ++ scanFileForPatterns path (Lines sf))
  end.

(** The walk of [main]: [validateGoFile] on each discovered [.go] file in
    turn, all appending to the same [errs]. *)
Fixpoint validateFiles (jobs : list (SourceFile * list Object)) (errs : list string)
  : option (list string) :=
  match jobs with
  | [] => Some errs
  | (sf, order) :: rest =>
      errs' ← validateGoFile sf order errs;
      validateFiles rest errs'
  end.

(** ** Notions the properties are stated with *)

(** [fn.Type.Params.List], empty when [fn.Type.Params] is nil. *)
Definition paramList (fn : FuncDecl) : list Field :=
  match Params fn with
  | Some params => params
  | None => []
  end.

(** The entries of a parameter list that the counting loop counts. *)
Definition countedEntry (param : Field) : bool :=
  negb (isAllowedParam (Type_ param))
  && negb (isStructType (Type_ param))
  && negb (isPointerToStruct (Type_ param)).

(** Following the words of the parameter-shape rule: the number of
    parameters of the function, every declared name being one parameter
    (an entry without names declares one), whose type is neither exempt
    nor a struct nor a pointer to a struct. *)
Definition remainingParameters (params : list Field) : nat :=
  list_sum (map (fun param => Nat.max 1 (length (Names param)))
                (List.filter countedEntry params)).

(** [name] holds "Id", "Url" or "Http" somewhere, letter for letter. *)
Definition hasMiscasedAcronym (name : string) : Prop :=
  exists before after,
    name = before +:+ "Id" +:+ after
    \/ name = before +:+ "Url" +:+ after
    \/ name = before +:+ "Http" +:+ after.


(** [fn] with another parameter list. *)
Definition withParams (fn : FuncDecl) (params : list Field) : FuncDecl :=
  {| Doc := Doc fn; Recv := Recv fn; FuncName := FuncName fn;
     FuncPos := FuncPos fn; Params := Some params; Body := Body fn |}.

(** A declaration the first loop takes for the [TestMain] hook: a function
    with a body, named [TestMain], whose parameter list has one entry, of
    type [*testing.M].  The entry may name several parameters:
    [func TestMain(m, n *testing.M) {}] is taken for the hook. *)
Definition isTestMainHook (decl : Decl) : bool :=
  match decl with
  | FuncDeclD fn =>
      match Body fn, Params fn with
      | Some _, Some [param] =>
          String.eqb (Name (FuncName fn)) "TestMain" && isTestingM (Type_ param)
      | _, _ => false
      end
  | GenDecl _ _ => false
  end.

(** A declaration the first loop collects as a test function: a function
    with a body whose name starts with "Test", a [TestMain] with a single
    parameter entry apart. *)
Definition isTestFunction (fn : FuncDecl) : bool :=
  match Body fn with
  | None => false
  | Some _ =>
      HasPrefix (Name (FuncName fn)) "Test"
      && negb (String.eqb (Name (FuncName fn)) "TestMain"
               && match Params fn with Some [_] => true | _ => false end)
  end.

Definition testFunctions (decls : list Decl) : list FuncDecl :=
  flat_map (fun decl => match decl with
                        | FuncDeclD fn => if isTestFunction fn then [fn] else []
                        | GenDecl _ _ => []
                        end) decls.

(** The function a test collected by [collectTests] is checked for. *)
Definition hasTableShape (body : list Stmt) : bool :=
  anyStmt setsSliceDecl (BlockStmt body) && anyStmt setsForLoop (BlockStmt body).

(** An order of [range] that fits the file: any, when there is no tree. *)
Definition validOrder (sf : SourceFile) (order : list Object) : Prop :=
  match Parse sf with
  | Some (_, f) => rangeOrder (ScopeObjects f) order
  | None => True
  end.

(** ** Sample inputs *)

Definition ident (name : string) : Ident := {| Name := name; NamePos := 0%Z |}.

Definition quoted (s : string) : string := String dquote (s +:+ String dquote EmptyString).

(** The line that calls [errors.New] on a capitalized literal ending in a
    period. *)
Definition errorsNewLine : string :=
  "errors.New(" +:+ quoted "Something failed." +:+ ")".

(** The same literal passed to [fmt.Errorf]. *)
Definition fmtErrorfLine : string :=
  "fmt.Errorf(" +:+ quoted "Something failed." +:+ ")".

(** [t.Error] on a literal that starts with the arrow U+2192, bytes
    E2 86 92: a character that is no letter. *)
Definition arrowLine : string :=
  "t.Error(" +:+ quoted (bytes [226; 134; 146] +:+ " bad") +:+ ")".

(** [t.Error] on a literal that starts with a digit. *)
Definition digitLine : string := "t.Error(" +:+ quoted "404 not found" +:+ ")".

(** [func pair(a, b int) {}]: two parameters in one entry. *)
Definition pairFn : FuncDecl :=
  {| Doc := None; Recv := None; FuncName := ident "pair"; FuncPos := 1%Z;
     Params := Some [mkField [ident "a"; ident "b"] (IdentExpr (ident "int"))];
     Body := Some [] |}.

(** [func two(a int, b string) {}] *)
Definition twoFn : FuncDecl :=
  {| Doc := None; Recv := None; FuncName := ident "two"; FuncPos := 1%Z;
     Params := Some [mkField [ident "a"] (IdentExpr (ident "int"));
                     mkField [ident "b"] (IdentExpr (ident "string"))];
     Body := Some [] |}.

(** A test function with an empty body. *)
Definition emptyTest (name : string) (pos : Pos) : FuncDecl :=
  {| Doc := None; Recv := None; FuncName := {| Name := name; NamePos := (pos + 5)%Z |};
     FuncPos := pos;
     Params := Some [mkField [ident "t"]
                       (StarExpr (SelectorExpr (IdentExpr (ident "testing")) (ident "T")))];
     Body := Some [] |}.

Definition testAlpha : FuncDecl := emptyTest "TestAlpha" 11%Z.
Definition testBeta : FuncDecl := emptyTest "TestBeta" 21%Z.

(** A file set holding one file of forty bytes, ten bytes a line. *)
Definition sampleFileSet : FileSet :=
  [ {| fileBase := 1%Z; fileSize := 40%Z; fileLine := fun offset => (offset / 10 + 1)%Z |} ].

(** A test file declaring [TestAlpha] and [TestBeta] and no [TestMain]. *)
Definition twoTestsTree : File :=
  {| Decls := [FuncDeclD testAlpha; FuncDeclD testBeta];
     ScopeObjects := {[ "TestAlpha" := {| ObjName := "TestAlpha"; ObjPos := 16%Z |};
                        "TestBeta" := {| ObjName := "TestBeta"; ObjPos := 26%Z |} ]} |}.

Definition twoTestsFile : SourceFile :=
  {| Path := "a_test.go"; Parse := Some (sampleFileSet, twoTestsTree); Lines := [] |}.

(** A file the parser rejects, with a blocking sleep on its first line. *)
Definition malformedFile : SourceFile :=
  {| Path := "bad.go"; Parse := None; Lines := ["time.Sleep(1)"; "func ("] |}.

(** [func helper(t *mypkg.T, n int) {}]: the qualifier is not [testing]. *)
Definition otherPackageFn : FuncDecl :=
  {| Doc := None; Recv := None; FuncName := ident "helper"; FuncPos := 1%Z;
     Params := Some [mkField [ident "t"]
                       (StarExpr (SelectorExpr (IdentExpr (ident "mypkg")) (ident "T")));
                     mkField [ident "n"] (IdentExpr (ident "int"))];
     Body := Some [] |}.

(** A file declaring [max_size int] and [min_size int] in one [var] block,
    on its lines 2 and 3. *)
Definition maxSize : Object := {| ObjName := "max_size"; ObjPos := 11%Z |}.
Definition minSize : Object := {| ObjName := "min_size"; ObjPos := 21%Z |}.

Definition snakeTree : File :=
  {| Decls :=
       [GenDecl VAR
          [ValueSpec [{| Name := "max_size"; NamePos := 11%Z |}]
                     (Some (IdentExpr (ident "int"))) [];
           ValueSpec [{| Name := "min_size"; NamePos := 21%Z |}]
                     (Some (IdentExpr (ident "int"))) []]];
     ScopeObjects := {[ "max_size" := maxSize; "min_size" := minSize ]} |}.

Definition snakeFile : SourceFile :=
  {| Path := "s.go"; Parse := Some (sampleFileSet, snakeTree); Lines := [] |}.

(** A file declaring, on its lines 2, 3 and 4, the function [CandidIdea],
    the type [Client] and the variable [baseUrl]. *)
Definition namesTree : File :=
  {| Decls :=
       [ FuncDeclD {| Doc := None; Recv := None; FuncName := ident "CandidIdea";
                      FuncPos := 11%Z; Params := Some []; Body := Some [] |};
         GenDecl TYPE [TypeSpec {| Name := "Client"; NamePos := 21%Z |} (StructType [])];
         GenDecl VAR [ValueSpec [{| Name := "baseUrl"; NamePos := 31%Z |}] None
                        [BasicLit "x"]] ];
     ScopeObjects := ∅ |}.

(** Stand-ins for the Unicode tables and for [%s], for sources whose
    names are ASCII and whose declared types are identifiers: there the
    rules never consult them. *)
Definition noUpper : string -> bool := fun _ => false.
Definition keepCase : string -> string := fun s => s.
Definition noExprString : Expr -> string := fun _ => EmptyString.

(** ** [regexp]: the fragment the bug-reference rule is written in *)

(** An expression is a sequence of items: the word boundary [\b], a
    literal, a greedy [c+] over a class of bytes, and a capturing group
    [(c{n})] of exactly [n] bytes of a class. *)
Inductive ReItem :=
| ReBoundary
| ReLit (lit : string)
| RePlus (class : ascii -> bool)
| ReCapture (class : ascii -> bool) (n : nat).

(** The classes [\w], [\s] and [\d]. *)
Definition isWordByte (c : ascii) : bool := isAlnumByte c || Ascii.eqb c "_".

Definition isReSpace (c : ascii) : bool :=
  (byte c =? 9)%nat || (byte c =? 10)%nat || (byte c =? 12)%nat
  || (byte c =? 13)%nat || (byte c =? 32)%nat.

Definition isWordAt (at_ : option ascii) : bool :=
  match at_ with
  | Some c => isWordByte c
  | None => false
  end.

(** [\b] between the byte [prev] before the position and the rest [s]. *)
Definition atBoundary (prev : option ascii) (s : string) : bool :=
  xorb (isWordAt prev) (isWordAt (firstByte s)).

Fixpoint lastByteOr (prev : option ascii) (s : string) : option ascii :=
  match s with
  | EmptyString => prev
  | String c t => lastByteOr (Some c) t
  end.

Fixpoint takeBytes (n : nat) (s : string) : string :=
  match n, s with
  | S n', String c t => String c (takeBytes n' t)
  | _, _ => EmptyString
  end.

(** The first [n] bytes of [s] when there are that many and all are in
    [class], with the rest of [s]. *)
Definition takeClass (class : ascii -> bool) (n : nat) (s : string)
  : option (string * string) :=
  let taken := takeBytes n s in
  if (String.length taken =? n)%nat && allBytes class taken
  then Some (taken, dropBytes n s) else None.

(** A match of [items] at the start of [s], as a backtracking matcher finds
    it (a [c+] tries the longest run first): the captured groups and what
    is left of [s]. *)
Fixpoint matchItems (items : list ReItem) (prev : option ascii) (s : string)
  {struct items} : option (list string * string) :=
  match items with
  | [] => Some ([], s)
  | ReBoundary :: rest =>
      if atBoundary prev s then matchItems rest prev s else None
  | ReLit lit :: rest =>
      if HasPrefix s lit
      then matchItems rest (lastByteOr prev lit) (dropBytes (String.length lit) s)
      else None
  | RePlus class :: rest =>
      (fix run (s : string) {struct s} : option (list string * string) :=
         match s with
         | EmptyString => None
         | String c t =>
             if class c then
               match run t with
               | Some r => Some r
               | None => matchItems rest (Some c) t
               end
             else None
         end) s
  | ReCapture class n :: rest =>
      match takeClass class n s with
      | Some (group, s') =>
          match matchItems rest (lastByteOr prev group) s' with
          | Some (groups, remaining) => Some (group :: groups, remaining)
          | None => None
          end
      | None => None
      end
  end.

(** The leftmost match, from the position behind [prev] on. *)
Fixpoint searchFrom (items : list ReItem) (prev : option ascii) (s : string)
  : option (list string) :=
  match matchItems items prev s with
  | Some (groups, remaining) =>
      Some (takeBytes (String.length s - String.length remaining) s :: groups)
  | None =>
      match s with
      | EmptyString => None
      | String c t => searchFrom items (Some c) t
      end
  end.

(** [re.FindStringSubmatch(s)]: the whole match, then the groups. *)
Definition FindStringSubmatch (items : list ReItem) (s : string) : option (list string) :=
  searchFrom items None s.

(** *** [checkProtoFiles] *)

(** The expression [\b\w+\s+b/(\d{9})\b]. *)
Definition bareBugRe : list ReItem :=
  [ReBoundary; RePlus isWordByte; RePlus isReSpace; ReLit "b/";
   ReCapture isDigitByte 9; ReBoundary].

Definition bareBugMsg (path : string) (lineNo : Z) (id : string) : string :=
  located path lineNo
    ("found bare bug ID " +:+ id
     +:+ ", please use full URL like https://example.corp.example.com/issues/" +:+ id).

(** One turn of the scan loop of a [.proto] file. *)
Definition protoLine (path : string) (lineNo : Z) (line : string) : list string :=
  match FindStringSubmatch bareBugRe line with
  | Some matches =>
      if (length matches =? 2)%nat
      then [bareBugMsg path lineNo (nth 1 matches EmptyString)] else []
  | None => []
  end.

(** [lineNo] is the number of lines read so far. *)
Fixpoint protoLines (path : string) (lineNo : Z) (lines : list string) : list string :=
  match lines with
  | [] => []
  | line :: rest =>
      protoLine path (lineNo + 1)%Z line ++ protoLines path (lineNo + 1)%Z rest
  end.

(** What [filepath.Walk] hands to its callback for one visited path: the
    file there, whether the walk reports an error for it, whether it is a
    directory, and the order in which a [validateGoFile] on it would range
    over the scope map. *)
Record WalkEntry := {
  Visited : SourceFile;
  WalkErr : bool;
  IsDir : bool;
  ScopeOrder : list Object
}.

(** The callback of [checkProtoFiles]. *)
Definition protoEntry (entry : WalkEntry) : list string :=
  if WalkErr entry || IsDir entry || negb (HasSuffix (Path (Visited entry)) ".proto")
  then []
  else protoLines (Path (Visited entry)) 0%Z (Lines (Visited entry)).

(** [checkProtoFiles(root)]; [walked] is what the walk from [root] visits,
    in its order. *)
Definition checkProtoFiles (walked : list WalkEntry) : list string :=
  flat_map protoEntry walked.

(** *** [main] *)

(** What [os.Stat(root)] answers. *)
Inductive RootStat :=
| StatError (err : string)
| StatFile
| StatDir.

(** The file system as [main] meets it: the answer of [os.Stat(root)],
    what a walk from [root] visits, and, for a root that is a file, what
    the parser and the scanner make of it. *)
Record World := {
  Stat : RootStat;
  Walked : list WalkEntry;
  RootParse : option (FileSet * File);
  RootLines : list string;
  RootOrder : list Object
}.

(** How the process ends: what it printed and its exit code, or a panic. *)
Inductive Outcome :=
| Exit (printed : list string) (code : Z)
| Panic.

(** The callback of the walk of [main], and the walk. *)
Definition goEntry (entry : WalkEntry) (errs : list string) : option (list string) :=
  if WalkErr entry || IsDir entry || negb (HasSuffix (Path (Visited entry)) ".go")
  then Some errs
  else validateGoFile (Visited entry) (ScopeOrder entry) errs.

Fixpoint walkGo (walked : list WalkEntry) (errs : list string) : option (list string) :=
  match walked with
  | [] => Some errs
  | entry :: rest =>
      errs' ← goEntry entry errs;
      walkGo rest errs'
  end.

(** The check mark U+2705. *)
Definition passedMsg : string :=
  "All validation checks passed " +:+ bytes [226; 156; 133].

(** The end of [main]. *)
Definition report (errs : list string) : Outcome :=
  if (0 <? length errs)%nat
  then Exit ("Validation failed:" :: map (fun e => " - " +:+ e) errs) 1
  else Exit [passedMsg] 0.

(** [main]; [args] is [os.Args]. *)
Definition main (args : list string) (w : World) : Outcome :=
  match args with
  | _ :: root :: _ =>
      let errs := checkProtoFiles (Walked w) in
      match Stat w with
      | StatError err => Exit ["Invalid path: " +:+ err] 0
      | StatDir =>
          match walkGo (Walked w) errs with
          | Some errs' => report errs'
          | None => Panic
          end
      | StatFile =>
          if HasSuffix root ".go" then
            match validateGoFile
                    {| Path := root; Parse := RootParse w; Lines := RootLines w |}
                    (RootOrder w) errs with
            | Some errs' => report errs'
            | None => Panic
            end
          else Exit ["Provided file is not a .go file"] 0
      end
  | _ => Exit ["Usage: go run main.go <path>"] 0
  end.

(** ** Notions the further properties are stated with *)

(** The test function lacks the table-driven shape: no table or no range
    loop in its body. *)
Definition lacksTableShape (fn : FuncDecl) : bool :=
  match Body fn with
  | Some body => negb (hasTableShape body)
  | None => true
  end.

(** The declaration on which the helper rule dereferences a nil body: a
    function of a test file without receiver, without the "Test" prefix
    and without body that names a [*testing.T] parameter. *)
Definition walksNilBody (path : string) (fn : FuncDecl) : bool :=
  isHelperCandidate path fn
  && nonEmpty (findTName (paramList fn))
  && match Body fn with None => true | Some _ => false end.

(** What one file adds to the diagnostics. *)
Definition fileDiagnostics (job : SourceFile * list Object) : option (list string) :=
  validateGoFile job.1 job.2 [].

(** A byte that may stand inside the literal the error-string rule
    extracts: neither a double quote nor a newline. *)
Definition isLiteralByte (c : ascii) : bool :=
  negb (Ascii.eqb c dquote) && negb (Ascii.eqb c (ascii_of_nat 10)).

Definition isNoQuote (c : ascii) : bool := negb (Ascii.eqb c dquote).

(** The literal starts with the upper-case form of its first byte. *)
Definition firstByteIsOwnUpper (c : ascii) (rest : string) : bool :=
  if isASCII c then negb (isLowerByte c) else HasPrefix (String c rest) runeError.

(** The line holds one of the three calls the error-string rule looks for. *)
Definition callsErrorReport (line : string) : bool :=
  Contains line "t.Errorf(" || Contains line "t.Error(" || Contains line "fmt.Errorf(".

(** The first byte of the sequence lies outside ASCII. *)
Definition startsOutsideASCII (w : string) : bool :=
  match w with
  | EmptyString => false
  | String b _ => negb (isASCII b)
  end.

(** An ASCII byte that is no white space: what a trimmed line of code
    starts and ends with. *)
Definition isInkByte (c : ascii) : bool := isASCII c && negb (isAsciiSpace c).

Definition newline : string := String (ascii_of_nat 10) EmptyString.

(** [line] holds a bare bug reference: behind [pre], which does not end
    with a word byte, a word, white space, [b/] and nine digits [id] that
    no word byte follows. *)
Definition bareBugAt (line pre word spaces id post : string) : Prop :=
  line = pre +:+ word +:+ spaces +:+ "b/" +:+ id +:+ post
  /\ isWordAt (lastByteOr None pre) = false
  /\ nonEmpty word = true /\ allBytes isWordByte word = true
  /\ nonEmpty spaces = true /\ allBytes isReSpace spaces = true
  /\ String.length id = 9%nat /\ allBytes isDigitByte id = true
  /\ isWordAt (firstByte post) = false.

(** The walk hands the entry to the scan of [checkProtoFiles]. *)
Definition isProtoFile (entry : WalkEntry) : bool :=
  negb (WalkErr entry) && negb (IsDir entry) && HasSuffix (Path (Visited entry)) ".proto".

(** What one entry of the walk of [main] adds to the diagnostics. *)
Definition entryDiagnostics (entry : WalkEntry) : option (list string) :=
  goEntry entry [].

(** ** Further sample inputs *)

Definition testingT : Expr :=
  StarExpr (SelectorExpr (IdentExpr (ident "testing")) (ident "T")).

(** [func check(t *testing.T) { t.Helper() }] *)
Definition helperFn : FuncDecl :=
  {| Doc := None; Recv := None; FuncName := ident "check"; FuncPos := 11%Z;
     Params := Some [mkField [ident "t"] testingT];
     Body := Some [ExprStmt (CallExpr (SelectorExpr (IdentExpr (ident "t")) (ident "Helper")) [])] |}.

(** [func check(t *testing.T)], declared without body, in a test file. *)
Definition bodylessFile : SourceFile :=
  {| Path := "h_test.go";
     Parse := Some (sampleFileSet,
                    {| Decls := [FuncDeclD {| Doc := None; Recv := None;
                                              FuncName := ident "check"; FuncPos := 11%Z;
                                              Params := Some [mkField [ident "t"] testingT];
                                              Body := None |}];
                       ScopeObjects := ∅ |});
     Lines := [] |}.

(** A file declaring [func get_value() {}]. *)
Definition getValueFn : FuncDecl :=
  {| Doc := None; Recv := None; FuncName := ident "get_value"; FuncPos := 11%Z;
     Params := Some []; Body := Some [] |}.

Definition getValueTree : File :=
  {| Decls := [FuncDeclD getValueFn]; ScopeObjects := ∅ |}.

(** The arguments of [t.Log("a, b", x)]. *)
Definition twoLogArgs : string := quoted "a, b" +:+ ", x".

(** A walk from [d] that meets the directory itself, a [.proto] file with a
    bare bug reference on its second line, then a [.go] file the parser
    rejects. *)
Definition protoEntrySample : WalkEntry :=
  {| Visited := {| Path := "d/api.proto"; Parse := None;
                   Lines := ["syntax = 3;"; "// see b/123456789 for details"] |};
     WalkErr := false; IsDir := false; ScopeOrder := [] |}.

Definition dirWorld : World :=
  {| Stat := StatDir;
     Walked := [ {| Visited := {| Path := "d"; Parse := None; Lines := [] |};
                    WalkErr := false; IsDir := true; ScopeOrder := [] |};
                 protoEntrySample;
                 {| Visited := {| Path := "d/bad.go"; Parse := None;
                                  Lines := Lines malformedFile |};
                    WalkErr := false; IsDir := false; ScopeOrder := [] |} ];
     RootParse := None; RootLines := []; RootOrder := [] |}.

(** The same [.proto] file given as the root. *)
Definition protoWorld : World :=
  {| Stat := StatFile; Walked := [protoEntrySample];
     RootParse := None; RootLines := Lines (Visited protoEntrySample); RootOrder := [] |}.













(** ** Facts about the byte strings *)

Lemma append_nil_l (b : string) : EmptyString +:+ b = b.
Proof. reflexivity. Qed.

Lemma append_cons (c : ascii) (a b : string) : String c a +:+ b = String c (a +:+ b).
Proof. reflexivity. Qed.

Lemma append_assoc (a b c : string) : (a +:+ b) +:+ c = a +:+ (b +:+ c).
Proof.
  induction a as [|x a IH]; [reflexivity | ].
  rewrite !append_cons. now f_equal.
Qed.

Lemma append_nil_r (a : string) : a +:+ EmptyString = a.
Proof.
  induction a as [|x a IH]; [reflexivity | ].
  rewrite append_cons. now f_equal.
Qed.

Lemma length_append (a b : string) :
  String.length (a +:+ b) = (String.length a + String.length b)%nat.
Proof.
  induction a as [|x a IH]; [reflexivity | ].
  rewrite append_cons. simpl. now rewrite IH.
Qed.

Lemma append_inv_head (a x y : string) : a +:+ x = a +:+ y -> x = y.
Proof.
  induction a as [|c a IH]; intros H; [exact H | ].
  rewrite !append_cons in H. injection H as H. now apply IH.
Qed.

Lemma append_inv_tail (b x y : string) : x +:+ b = y +:+ b -> x = y.
Proof.
  revert y. induction x as [|c x IH]; intros [|d y] H.
  - reflexivity.
  - apply (f_equal String.length) in H. rewrite !length_append in H. simpl in H. lia.
  - apply (f_equal String.length) in H. rewrite !length_append in H. simpl in H. lia.
  - rewrite !append_cons in H. injection H as -> H. f_equal. now apply IH.
Qed.

Lemma HasPrefix_spec (s p : string) :
  HasPrefix s p = true <-> exists t, s = p +:+ t.
Proof.
  revert s. induction p as [|b p IH]; intros s; simpl.
  - split; [intros _; now exists s | reflexivity].
  - destruct s as [|a s].
    + split; [discriminate | intros [t H]; discriminate].
    + rewrite andb_true_iff, IH. split.
      * intros [Hab [t ->]]. apply Ascii.eqb_eq in Hab as ->. now exists t.
      * intros [t H]. rewrite append_cons in H. injection H as -> ->.
        split; [apply Ascii.eqb_refl | now exists t].
Qed.

Lemma HasPrefix_app (p t : string) : HasPrefix (p +:+ t) p = true.
Proof. apply HasPrefix_spec. now exists t. Qed.

Lemma Contains_spec (s sub : string) :
  Contains s sub = true <-> exists a b, s = a +:+ sub +:+ b.
Proof.
  induction s as [|c s IH].
  - simpl. rewrite orb_false_r, HasPrefix_spec. split.
    + intros [t H]. now exists EmptyString, t.
    + intros [[|x a] [b H]]; [now exists b | discriminate].
  - cbn [Contains]. rewrite orb_true_iff, HasPrefix_spec, IH. split.
    + intros [[t H] | [a [b H]]].
      * now exists EmptyString, t.
      * exists (String c a), b. rewrite append_cons. now rewrite H.
    + intros [[|x a] [b H]].
      * left. now exists b.
      * right. rewrite append_cons in H. injection H as -> ->. now exists a, b.
Qed.

Lemma HasSuffix_spec (s suf : string) :
  HasSuffix s suf = true <-> exists a, s = a +:+ suf.
Proof.
  induction s as [|c s IH].
  - cbn [HasSuffix]. rewrite orb_false_r, String.eqb_eq. split.
    + intros <-. now exists EmptyString.
    + intros [[|x a] H]; [exact H | discriminate].
  - cbn [HasSuffix]. rewrite orb_true_iff, String.eqb_eq, IH. split.
    + intros [<- | [a ->]]; [now exists EmptyString | now exists (String c a)].
    + intros [[|x a] H]; [now left | right].
      rewrite append_cons in H. injection H as -> ->. now exists a.
Qed.

(** A suffix test on [a +:+ b] only looks at [b] when [b] is long enough. *)
Lemma HasSuffix_app (a b suf : string) :
  (String.length suf <= String.length b)%nat ->
  HasSuffix (a +:+ b) suf = HasSuffix b suf.
Proof.
  intros Hlen. induction a as [|c a IH]; [reflexivity | ].
  rewrite append_cons. cbn [HasSuffix]. rewrite IH.
  destruct (String.eqb_spec (String c (a +:+ b)) suf) as [E | _]; [ | reflexivity].
  apply (f_equal String.length) in E. simpl in E. rewrite length_append in E. lia.
Qed.

Lemma PositionLine_NewFileSet (p : Pos) : PositionLine NewFileSet p = 0%Z.
Proof. unfold PositionLine. now destruct (p =? NoPos)%Z. Qed.


(** ** The parameter-shape rule *)

Lemma nonStructCount_filter (params : list Field) :
  nonStructCount params = length (List.filter countedEntry params).
Proof.
  induction params as [|param rest IH]; [reflexivity | ].
  cbn [nonStructCount List.filter]. unfold countedEntry at 1.
  destruct (isAllowedParam (Type_ param)); cbn [negb andb]; [exact IH | ].
  destruct (negb (isStructType (Type_ param)) && negb (isPointerToStruct (Type_ param)));
    cbn [length]; now rewrite IH.
Qed.

Lemma nonStructCount_all_allowed (params : list Field) :
  allParamsAllowed params = true -> nonStructCount params = 0%nat.
Proof.
  unfold allParamsAllowed. induction params as [|param rest IH]; [reflexivity | ].
  cbn [forallb nonStructCount]. intros H. apply andb_true_iff in H as [-> H].
  now apply IH.
Qed.

(** The two early returns of [checkStructParameterUsage] never change its
    answer: the count alone decides. *)
Lemma checkStructParameterUsage_count (path : string) (fn : FuncDecl) (fs : FileSet) :
  checkStructParameterUsage path fn fs =
  if (1 <? nonStructCount (paramList fn))%nat
  then [structParamMsg path (PositionLine fs (FuncPos fn)) (Name (FuncName fn))]
  else [].
Proof.
  unfold checkStructParameterUsage, paramList.
  destruct (Params fn) as [params|]; [ | reflexivity].
  destruct params as [|p1 rest]; [reflexivity | ].
  cbn [length Nat.eqb].
  destruct (_ && allParamsAllowed (p1 :: rest)) eqn:E; [ | reflexivity].
  apply andb_true_iff in E as [_ E].
  now rewrite (nonStructCount_all_allowed _ E).
Qed.

Lemma nonStructCount_app (before after : list Field) :
  nonStructCount (before ++ after) = (nonStructCount before + nonStructCount after)%nat.
Proof.
  rewrite !nonStructCount_filter, List.filter_app. apply length_app.
Qed.

(** C7, as amended.  The "single config struct" diagnostic is emitted if
    and only if more than one entry of the parameter list (a group such as
    [a, b int] is one entry, whatever the number of names it declares) has
    a type that is neither exempt nor a struct literal nor a pointer to a
    struct; a function whose entries are all exempt, one without parameters
    included, is never flagged. *)
Theorem C7_flagged_iff_two_counted_entries (path : string) (fn : FuncDecl) (fs : FileSet) :
  (In (structParamMsg path (PositionLine fs (FuncPos fn)) (Name (FuncName fn)))
      (checkStructParameterUsage path fn fs)
   <-> (1 < length (List.filter countedEntry (paramList fn)))%nat)
  /\ ((1 < length (List.filter countedEntry (paramList fn)))%nat
      \/ checkStructParameterUsage path fn fs = [])
  /\ ((forall param, In param (paramList fn) -> isAllowedParam (Type_ param) = true) ->
      checkStructParameterUsage path fn fs = []).
Proof.
  rewrite checkStructParameterUsage_count, nonStructCount_filter.
  destruct (1 <? length (List.filter countedEntry (paramList fn)))%nat eqn:E.
  - apply Nat.ltb_lt in E. split; [ | split].
    + split; intros _; [exact E | now left].
    + now left.
    + intros Hall. exfalso.
      destruct (List.filter countedEntry (paramList fn)) as [|param rest] eqn:F;
        [simpl in E; lia | ].
      assert (Hin : In param (List.filter countedEntry (paramList fn)))
        by (rewrite F; now left).
      apply List.filter_In in Hin as [Hin Hc]. unfold countedEntry in Hc.
      rewrite (Hall _ Hin) in Hc. discriminate.
  - apply Nat.ltb_ge in E. split; [ | split].
    + split; [intros [] | intros H; lia].
    + now right.
    + reflexivity.
Qed.

(** C9.  A parameter whose type is a pointer to a selector ending in [T]
    or [DUTDevice] is exempt whatever stands before the dot, and it is
    never counted: with or without such an entry at any place of the
    parameter list, the count and the diagnostics are the same. *)
Theorem C9_exemption_ignores_package
  (path : string) (fn : FuncDecl) (fs : FileSet)
  (before after : list Field) (names : list Ident) (qualifier : Expr) (sel : Ident) :
  Name sel = "T" \/ Name sel = "DUTDevice" ->
  let exempt := mkField names (StarExpr (SelectorExpr qualifier sel)) in
  isAllowedParam (Type_ exempt) = true
  /\ nonStructCount (before ++ exempt :: after) = nonStructCount (before ++ after)
  /\ checkStructParameterUsage path (withParams fn (before ++ exempt :: after)) fs
     = checkStructParameterUsage path (withParams fn (before ++ after)) fs.
Proof.
  intros Hsel exempt.
  assert (Hallowed : isAllowedParam (Type_ exempt) = true).
  { cbn. destruct Hsel as [-> | ->]; reflexivity. }
  assert (Hcount : nonStructCount (before ++ exempt :: after)
                   = nonStructCount (before ++ after)).
  { rewrite !nonStructCount_app. f_equal. cbn [nonStructCount]. now rewrite Hallowed. }
  repeat split; [exact Hallowed | exact Hcount | ].
  rewrite !checkStructParameterUsage_count. cbn [withParams paramList Params FuncPos FuncName].
  now rewrite Hcount.
Qed.

(** ** Line numbers of the MixedCaps diagnostics *)

Ltac in_singletons H :=
  repeat (apply in_app_or in H; destruct H as [H | H]);
  repeat match type of H with
         | In _ (if ?c then _ else _) => destruct c
         end;
  try (destruct H as [H | []]).

Lemma mixedCapsFunc_line_zero (path : string) (fn : FuncDecl) (d : string) :
  In d (mixedCapsFunc path NewFileSet fn) -> exists msg, d = located path 0 msg.
Proof.
  unfold mixedCapsFunc. rewrite PositionLine_NewFileSet. intros H.
  in_singletons H; try contradiction; subst d;
    unfold snakeCaseMsg, mixedCapsMsg, funcAcronymMsg; eexists; reflexivity.
Qed.

Lemma mixedCapsName_line_zero (path kind exportedKind : string) (id : Ident) (d : string) :
  In d (mixedCapsName path NewFileSet kind exportedKind id) ->
  exists msg, d = located path 0 msg.
Proof.
  unfold mixedCapsName. rewrite PositionLine_NewFileSet. intros H.
  in_singletons H; try contradiction; subst d;
    unfold snakeCaseMsg, mixedCapsMsg, acronymMsg; eexists; reflexivity.
Qed.

(** C8.  Every diagnostic of the MixedCaps check carries line number 0,
    whatever the position of the declaration and whatever file set the
    file was parsed with: the check looks positions up in a file set of its
    own, in which no file is registered. *)
Theorem C8_mixed_caps_reports_line_zero (path : string) (f : File) (d : string) :
  In d (checkMixedCaps path f) -> exists msg, d = path +:+ ":0: " +:+ msg.
Proof.
  unfold checkMixedCaps. intros H.
  apply in_flat_map in H as [decl [_ H]].
  assert (G : exists msg, d = located path 0 msg).
  { destruct decl as [fn | tok specs]; cbn [mixedCapsDecl] in H.
    - now apply mixedCapsFunc_line_zero in H.
    - apply in_flat_map in H as [spec [_ H]].
      destruct spec as [p | names typ values | name typ]; cbn [mixedCapsSpec] in H.
      + contradiction.
      + apply in_flat_map in H as [id [_ H]]. now apply mixedCapsName_line_zero in H.
      + now apply mixedCapsName_line_zero in H. }
  destruct G as [msg ->]. now exists msg.
Qed.

(** ** The error-string-style rule *)

Lemma scanLines_nth (path : string) (lines : list string) (start : Z) (i : nat)
  (line d : string) :
  nth_error lines i = Some line ->
  In d (scanLine path (start + Z.of_nat i) line) ->
  In d (scanLines path start lines).
Proof.
  revert start i. induction lines as [|l rest IH]; intros start [|i] Hnth Hd;
    try discriminate; cbn [scanLines]; apply in_or_app.
  - injection Hnth as ->. left. now rewrite Z.add_0_r in Hd.
  - right. apply (IH (start + 1)%Z i Hnth).
    now replace (start + 1 + Z.of_nat i)%Z with (start + Z.of_nat (S i))%Z by lia.
Qed.

Lemma errorStringRule_in_scanLine (path : string) (lineNo : Z) (line d : string) :
  In d (errorStringRule path lineNo line) -> In d (scanLine path lineNo line).
Proof.
  intros H. unfold scanLine. do 3 (apply in_or_app; right). apply in_or_app. now left.
Qed.

(** A literal starts with the upper-case form of its first byte exactly
    when that byte is ASCII and no lower-case letter, or when the literal
    starts with the three bytes of U+FFFD. *)
Lemma startsWithOwnUpper_spec (c : ascii) (rest : string) :
  startsWithOwnUpper (String c rest) =
  if isASCII c then negb (isLowerByte c) else HasPrefix (String c rest) runeError.
Proof.
  unfold startsWithOwnUpper, ToUpperByte. destruct (isASCII c) eqn:A; [ | reflexivity].
  cbn [HasPrefix]. rewrite andb_true_r. unfold upperByte.
  destruct (isLowerByte c) eqn:L; [ | apply Ascii.eqb_refl].
  apply Ascii.eqb_neq. intros E. apply (f_equal nat_of_ascii) in E.
  unfold isLowerByte, byte in *. apply andb_true_iff in L as [L1 L2].
  apply Nat.leb_le in L1, L2. rewrite nat_ascii_embedding in E; lia.
Qed.

(** C3, on the code.  The line [errors.New] with the literal
    "Something failed." is not looked at by the error-string rule: it holds
    none of the three calls the rule is triggered by, so neither diagnostic
    is emitted for it, nor any other diagnostic of the scan, although the
    literal the rule would extract is the capitalized, period-terminated
    one, and the same literal passed to [fmt.Errorf] gets both
    diagnostics. *)
Theorem C3_errors_New_line_is_skipped (path : string) (lineNo : Z) :
  errorStringRule path lineNo errorsNewLine = []
  /\ scanLine path lineNo errorsNewLine = []
  /\ extractStringLiteral errorsNewLine = "Something failed."
  /\ errorStringRule path lineNo fmtErrorfLine
     = [capitalizedMsg path lineNo; periodMsg path lineNo].
Proof.
  split; [reflexivity | ]. split; [ | split; reflexivity].
  unfold scanLine, logRule.
  destruct (Contains path "cfgplugins"), (HasSuffix path "_test.go"); reflexivity.
Qed.

(** C10, as amended.  On a scanned line holding [t.Error(], [t.Errorf(] or
    [fmt.Errorf(] whose first quoted literal is not empty and starts with
    an ASCII byte that is not a letter (a digit, a space, a punctuation
    mark), the "should not be capitalized" diagnostic is emitted, at the
    number of that line. *)
Theorem C10_ascii_non_letter_is_flagged
  (path : string) (lines : list string) (i : nat) (line : string)
  (c : ascii) (rest : string) :
  nth_error lines i = Some line ->
  Contains line "t.Error(" = true \/ Contains line "t.Errorf(" = true
    \/ Contains line "fmt.Errorf(" = true ->
  extractStringLiteral line = String c rest ->
  isASCII c = true ->
  isLetterByte c = false ->
  In (capitalizedMsg path (1 + Z.of_nat i)) (scanFileForPatterns path lines).
Proof.
  intros Hnth Hcall Hlit Hascii Hletter.
  apply (scanLines_nth path lines 1 i line _ Hnth), errorStringRule_in_scanLine.
  unfold errorStringRule.
  assert (Hc : Contains line "t.Errorf(" || Contains line "t.Error("
               || Contains line "fmt.Errorf(" = true).
  { destruct Hcall as [-> | [-> | ->]]; rewrite ?orb_true_r; reflexivity. }
  rewrite Hc, Hlit. cbn [nonEmpty]. rewrite startsWithOwnUpper_spec, Hascii.
  unfold isLetterByte in Hletter. apply orb_false_iff in Hletter as [-> _].
  now left.
Qed.

(** ** A file the parser rejects *)

Lemma validateFiles_app (before after : list (SourceFile * list Object))
  (errs : list string) :
  validateFiles (before ++ after) errs
  = (errs' ← validateFiles before errs; validateFiles after errs').
Proof.
  revert errs. induction before as [|[sf order] rest IH]; intros errs; [reflexivity | ].
  cbn [app validateFiles].
  destruct (validateGoFile sf order errs) as [errs1|]; [apply IH | reflexivity].
Qed.

(** C1, as amended.  For a file whose parse fails the engine appends the
    parse-failure diagnostic and nothing else: no structural diagnostic
    and no line-oriented one either, whatever the raw lines hold.  The
    call returns, and the walk goes on with the files that follow, which
    append to the diagnostics collected so far. *)
Theorem C1_parse_failure_yields_one_diagnostic
  (sf : SourceFile) (order : list Object) (errs : list string)
  (before after : list (SourceFile * list Object)) :
  Parse sf = None ->
  validateGoFile sf order errs = Some (errs ++ [parseFailureMsg (Path sf)])
  /\ validateFiles (before ++ (sf, order) :: after) errs
     = (errs' ← validateFiles before errs;
        validateFiles after (errs' ++ [parseFailureMsg (Path sf)])).
Proof.
  intros Hparse.
  assert (H : forall es, validateGoFile sf order es = Some (es ++ [parseFailureMsg (Path sf)])).
  { intros es. unfold validateGoFile. now rewrite Hparse. }
  split; [apply H | ].
  rewrite validateFiles_app. destruct (validateFiles before errs) as [errs'|]; [ | reflexivity].
  cbn [mbind option_bind validateFiles]. now rewrite H.
Qed.

(** ** The structure of a test file *)


(** What the first loop computes. *)
Lemma collectTests_spec (decls : list Decl) (hasTestMain : bool) (testFuncs : list FuncDecl) :
  collectTests decls hasTestMain testFuncs
  = (hasTestMain || existsb isTestMainHook decls, testFuncs ++ testFunctions decls).
Proof.
  revert hasTestMain testFuncs.
  induction decls as [|decl rest IH]; intros hasTestMain testFuncs.
  - cbn. now rewrite orb_false_r, app_nil_r.
  - destruct decl as [fn | tok specs]; cbn [collectTests existsb testFunctions flat_map];
      [ | now rewrite IH].
    fold (testFunctions rest). unfold isTestMainHook, isTestFunction.
    destruct (Body fn) as [body|]; [ | now rewrite IH].
    destruct (Params fn) as [[|param [|param2 params]]|];
      destruct (String.eqb (Name (FuncName fn)) "TestMain");
      destruct (HasPrefix (Name (FuncName fn)) "Test");
      rewrite IH; cbn [andb negb orb app]; rewrite <- ?app_assoc; cbn [app];
      rewrite ?orb_false_r; try reflexivity.
    all: f_equal; destruct (isTestingM (Type_ param)), hasTestMain; reflexivity.
Qed.


(** ** Two runs on the same file *)

Lemma validateGoFile_perm (sf : SourceFile) (order1 order2 : list Object)
  (errs1 errs2 : list string) :
  errs1 ≡ₚ errs2 ->
  validOrder sf order1 -> validOrder sf order2 ->
  option_Forall2 (≡ₚ) (validateGoFile sf order1 errs1) (validateGoFile sf order2 errs2).
Proof.
  unfold validOrder, validateGoFile, rangeOrder. intros Herrs H1 H2.
  destruct (Parse sf) as [[fs f]|].
  - assert (Horder : order1 ≡ₚ order2) by (now rewrite H1, H2).
    destruct (if HasSuffix (Path sf) "_test.go"
              then validateTestFileStructure (Path sf) f else Some [])
      as [structure|]; [ | constructor].
    destruct (funcDeclLoop (Path sf) fs (Decls f)) as [funcs|]; [ | constructor].
    cbn [mbind option_bind]. constructor.
    apply Permutation_app; [exact Herrs | ].
    do 2 apply Permutation_app_head. apply Permutation_app_tail.
    unfold scopeLoop. now apply Permutation_flat_map.
  - constructor. now apply Permutation_app_tail.
Qed.

(** C5.  Two runs of the analysis on the same file give the same
    diagnostics, with the same paths, line numbers and messages, each as
    many times: the only freedom between the runs, the order in which a
    run ranges over the scope map, permutes the result and changes nothing
    else; and either both runs return or both panic. *)
Theorem C5_two_runs_same_diagnostics
  (sf : SourceFile) (order1 order2 : list Object) (errs : list string) :
  validOrder sf order1 -> validOrder sf order2 ->
  option_Forall2 (≡ₚ) (validateGoFile sf order1 errs) (validateGoFile sf order2 errs).
Proof. now apply validateGoFile_perm. Qed.

(** The same for a whole walk. *)
Lemma validateFiles_perm (jobs1 jobs2 : list (SourceFile * list Object))
  (errs1 errs2 : list string) :
  Forall2 (fun j1 j2 => j1.1 = j2.1 /\ validOrder j1.1 j1.2 /\ validOrder j2.1 j2.2)
          jobs1 jobs2 ->
  errs1 ≡ₚ errs2 ->
  option_Forall2 (≡ₚ) (validateFiles jobs1 errs1) (validateFiles jobs2 errs2).
Proof.
  intros Hjobs. revert errs1 errs2.
  induction Hjobs as [|[sf o1] [sf' o2] rest1 rest2 [Hsf [Ho1 Ho2]] _ IH];
    intros errs1 errs2 Herrs; [now constructor | ].
  cbn in Hsf, Ho1, Ho2. subst sf'. cbn [validateFiles].
  destruct (validateGoFile_perm sf o1 o2 errs1 errs2 Herrs Ho1 Ho2) as [e1 e2 He | ];
    [now apply IH | constructor].
Qed.

(** ** Trimming a text that ends with a period *)

Lemma rev_app (a b : string) : rev (a +:+ b) = rev b +:+ rev a.
Proof.
  induction a as [|c a IH]; [now rewrite append_nil_l, append_nil_r | ].
  rewrite append_cons. cbn [rev]. now rewrite IH, append_assoc.
Qed.

Lemma rev_involutive (a : string) : rev (rev a) = a.
Proof.
  induction a as [|c a IH]; [reflexivity | ].
  cbn [rev]. rewrite rev_app, IH. reflexivity.
Qed.

Lemma length_rev (a : string) : String.length (rev a) = String.length a.
Proof.
  induction a as [|c a IH]; [reflexivity | ].
  cbn [rev]. rewrite length_append, IH. simpl. lia.
Qed.

Lemma allBytes_app (p : ascii -> bool) (a b : string) :
  allBytes p (a +:+ b) = allBytes p a && allBytes p b.
Proof.
  induction a as [|c a IH]; [reflexivity | ].
  rewrite append_cons. cbn [allBytes]. now rewrite IH, andb_assoc.
Qed.

Lemma allBytes_rev (p : ascii -> bool) (a : string) : allBytes p (rev a) = allBytes p a.
Proof.
  induction a as [|c a IH]; [reflexivity | ].
  cbn [rev allBytes]. rewrite allBytes_app, IH. cbn [allBytes].
  rewrite andb_true_r. apply andb_comm.
Qed.







(** ** Telling the diagnostics apart *)

Lemma differ_by_suffix (m1 m2 suf : string) :
  HasSuffix m1 suf = true -> HasSuffix m2 suf = false -> m1 <> m2.
Proof. intros H1 H2 E. rewrite E, H2 in H1. discriminate. Qed.

(** The suffix test of a message that ends with a literal. *)
Ltac suffix_of_msg :=
  unfold mustHaveDocMsg, docPeriodMsg, getPrefixMsg, helperMsg, lowercaseMsg,
    structParamMsg, snakeCaseMsg, mixedCapsMsg, funcAcronymMsg, acronymMsg, located;
  rewrite <- ?append_assoc;
  rewrite HasSuffix_app by (cbn; lia);
  reflexivity.

Ltac differ suf := apply (differ_by_suffix _ _ suf); suffix_of_msg.

Lemma fmtQuoted_inj (n n' : string) : fmtQuoted n = fmtQuoted n' -> n = n'.
Proof. unfold fmtQuoted. intros [= H]. now apply append_inv_tail in H. Qed.

Lemma named_msg_inj (path : string) (line : Z) (lead tail n n' : string) :
  located path line (lead +:+ fmtQuoted n +:+ tail)
  = located path line (lead +:+ fmtQuoted n' +:+ tail) -> n = n'.
Proof.
  unfold located. intros H.
  do 5 apply append_inv_head in H. now apply append_inv_tail, fmtQuoted_inj in H.
Qed.

Lemma funcAcronymMsg_inj (path : string) (line : Z) (n n' : string) :
  funcAcronymMsg path line n = funcAcronymMsg path line n' -> n = n'.
Proof. apply named_msg_inj. Qed.

Lemma acronymMsg_inj (path : string) (line : Z) (kind n n' : string) :
  acronymMsg path line kind n = acronymMsg path line kind n' -> n = n'.
Proof.
  unfold acronymMsg. rewrite <- !(append_assoc kind). apply named_msg_inj.
Qed.

Lemma acronymMsg_kind (path : string) (line : Z) (n n' : string) :
  acronymMsg path line "type" n <> acronymMsg path line "variable" n'.
Proof.
  unfold acronymMsg, located. intros H. do 4 apply append_inv_head in H. discriminate.
Qed.

Lemma badAcronyms_spec (name : string) :
  badAcronyms name = true <-> hasMiscasedAcronym name.
Proof.
  unfold badAcronyms, hasMiscasedAcronym. rewrite !orb_true_iff, !Contains_spec. split.
  - intros [[[a [b H]] | [a [b H]]] | [a [b H]]]; exists a, b;
      [left | right; left | right; right]; exact H.
  - intros [a [b [H | [H | H]]]]; [left; left | left; right | right]; now exists a, b.
Qed.

(** Two messages that end differently are not the same message. *)
Ltac clash suf :=
  match goal with
  | H : ?a = ?b |- _ =>
      exfalso;
      first [ apply (differ_by_suffix a b suf) in H; [exact H | suffix_of_msg | suffix_of_msg]
            | apply eq_sym in H;
              apply (differ_by_suffix b a suf) in H; [exact H | suffix_of_msg | suffix_of_msg] ]
  end.

(** ** The acronym diagnostics of the MixedCaps check *)

Lemma in_mixedCapsFunc_funcAcronym (path : string) (fn : FuncDecl) (n : string) :
  In (funcAcronymMsg path 0 n) (mixedCapsFunc path NewFileSet fn) ->
  Name (FuncName fn) = n /\ badAcronyms n = true.
Proof.
  unfold mixedCapsFunc. rewrite PositionLine_NewFileSet. intros H.
  apply in_app_or in H as [H | H]; [ | apply in_app_or in H as [H | H]].
  - destruct (snakeCase _); [ | contradiction]. destruct H as [H | []]. clash "snake_case".
  - destruct (IsExported _), (negb _); try contradiction;
      destruct H as [H | []]; clash "Caps".
  - destruct (badAcronyms (Name (FuncName fn))) eqn:E; [ | contradiction].
    destruct H as [H | []]. apply funcAcronymMsg_inj in H. now subst n.
Qed.

Lemma in_mixedCapsName_funcAcronym (path kind exportedKind : string) (id : Ident)
  (n : string) :
  In (funcAcronymMsg path 0 n) (mixedCapsName path NewFileSet kind exportedKind id) -> False.
Proof.
  unfold mixedCapsName. rewrite PositionLine_NewFileSet. intros H.
  apply in_app_or in H as [H | H]; [ | apply in_app_or in H as [H | H]].
  - destruct (snakeCase _); [ | contradiction]. destruct H as [H | []]. clash "snake_case".
  - destruct (IsExported _); [ | contradiction]. destruct (negb _); [ | contradiction].
    destruct H as [H | []]. clash "Caps".
  - destruct (badAcronyms _); [ | contradiction]. destruct H as [H | []]. clash "HTTP)".
Qed.

Lemma in_mixedCapsFunc_acronym (path kind : string) (fn : FuncDecl) (n : string) :
  In (acronymMsg path 0 kind n) (mixedCapsFunc path NewFileSet fn) -> False.
Proof.
  unfold mixedCapsFunc. rewrite PositionLine_NewFileSet. intros H.
  apply in_app_or in H as [H | H]; [ | apply in_app_or in H as [H | H]].
  - destruct (snakeCase _); [ | contradiction]. destruct H as [H | []]. clash "snake_case".
  - destruct (IsExported _), (negb _); try contradiction;
      destruct H as [H | []]; clash "Caps".
  - destruct (badAcronyms _); [ | contradiction]. destruct H as [H | []]. clash "HTTP)".
Qed.

Lemma in_mixedCapsName_acronym (path kind kind' exportedKind : string) (id : Ident)
  (n : string) :
  In (acronymMsg path 0 kind n) (mixedCapsName path NewFileSet kind' exportedKind id) ->
  acronymMsg path 0 kind' (Name id) = acronymMsg path 0 kind n
  /\ badAcronyms (Name id) = true.
Proof.
  unfold mixedCapsName. rewrite PositionLine_NewFileSet. intros H.
  apply in_app_or in H as [H | H]; [ | apply in_app_or in H as [H | H]].
  - destruct (snakeCase _); [ | contradiction]. destruct H as [H | []]. clash "snake_case".
  - destruct (IsExported _); [ | contradiction]. destruct (negb _); [ | contradiction].
    destruct H as [H | []]. clash "Caps".
  - destruct (badAcronyms (Name id)) eqn:E; [ | contradiction].
    destruct H as [H | []]. now split.
Qed.

Lemma acronym_emitted_for_func (path : string) (fn : FuncDecl) :
  badAcronyms (Name (FuncName fn)) = true ->
  In (funcAcronymMsg path 0 (Name (FuncName fn))) (mixedCapsFunc path NewFileSet fn).
Proof.
  intros H. unfold mixedCapsFunc. rewrite PositionLine_NewFileSet, H.
  apply in_or_app. right. apply in_or_app. right. now left.
Qed.

Lemma acronym_emitted_for_name (path kind exportedKind : string) (id : Ident) :
  badAcronyms (Name id) = true ->
  In (acronymMsg path 0 kind (Name id)) (mixedCapsName path NewFileSet kind exportedKind id).
Proof.
  intros H. unfold mixedCapsName. rewrite PositionLine_NewFileSet, H.
  apply in_or_app. right. apply in_or_app. right. now left.
Qed.

(** C6.  In the output of the MixedCaps check on a parsed file, the
    mis-cased-acronym diagnostic of a top-level function name, of a type
    name or of a variable name is present if and only if that name holds
    "Id", "Url" or "Http" as a substring, at whatever place and with that
    very casing. *)
Theorem C6_acronym_flagged_iff_substring (path : string) (f : File) :
  (forall fn, In (FuncDeclD fn) (Decls f) ->
     (In (funcAcronymMsg path 0 (Name (FuncName fn))) (checkMixedCaps path f)
      <-> hasMiscasedAcronym (Name (FuncName fn))))
  /\ (forall tok specs name typ,
        In (GenDecl tok specs) (Decls f) -> In (TypeSpec name typ) specs ->
        (In (acronymMsg path 0 "type" (Name name)) (checkMixedCaps path f)
         <-> hasMiscasedAcronym (Name name)))
  /\ (forall tok specs names typ values name,
        In (GenDecl tok specs) (Decls f) -> In (ValueSpec names typ values) specs ->
        In name names ->
        (In (acronymMsg path 0 "variable" (Name name)) (checkMixedCaps path f)
         <-> hasMiscasedAcronym (Name name))).
Proof.
  unfold checkMixedCaps. split; [ | split].
  - intros fn Hfn. rewrite <- badAcronyms_spec. split.
    + intros H. apply in_flat_map in H as [decl [_ H]].
      destruct decl as [fn' | tok specs]; cbn [mixedCapsDecl] in H.
      * now apply in_mixedCapsFunc_funcAcronym in H.
      * exfalso. apply in_flat_map in H as [spec [_ H]].
        destruct spec as [p | names typ values | name typ]; cbn [mixedCapsSpec] in H.
        -- contradiction.
        -- apply in_flat_map in H as [id [_ H]].
           now apply in_mixedCapsName_funcAcronym in H.
        -- now apply in_mixedCapsName_funcAcronym in H.
    + intros H. apply in_flat_map. exists (FuncDeclD fn). split; [exact Hfn | ].
      now apply acronym_emitted_for_func.
  - intros tok specs name typ Hdecl Hspec. rewrite <- badAcronyms_spec. split.
    + intros H. apply in_flat_map in H as [decl [_ H]].
      destruct decl as [fn' | tok' specs']; cbn [mixedCapsDecl] in H.
      * exfalso. now apply in_mixedCapsFunc_acronym in H.
      * apply in_flat_map in H as [spec [_ H]].
        destruct spec as [p | names' typ' values' | name' typ']; cbn [mixedCapsSpec] in H.
        -- contradiction.
        -- apply in_flat_map in H as [id [_ H]].
           apply in_mixedCapsName_acronym in H as [H _].
           symmetry in H. now apply acronymMsg_kind in H.
        -- apply in_mixedCapsName_acronym in H as [H Hbad].
           apply acronymMsg_inj in H. now rewrite <- H.
    + intros H. apply in_flat_map. exists (GenDecl tok specs). split; [exact Hdecl | ].
      cbn [mixedCapsDecl]. apply in_flat_map. exists (TypeSpec name typ).
      split; [exact Hspec | ]. now apply acronym_emitted_for_name.
  - intros tok specs names typ values name Hdecl Hspec Hname.
    rewrite <- badAcronyms_spec. split.
    + intros H. apply in_flat_map in H as [decl [_ H]].
      destruct decl as [fn' | tok' specs']; cbn [mixedCapsDecl] in H.
      * exfalso. now apply in_mixedCapsFunc_acronym in H.
      * apply in_flat_map in H as [spec [_ H]].
        destruct spec as [p | names' typ' values' | name' typ']; cbn [mixedCapsSpec] in H.
        -- contradiction.
        -- apply in_flat_map in H as [id [_ H]].
           apply in_mixedCapsName_acronym in H as [H Hbad].
           apply acronymMsg_inj in H. now rewrite <- H.
        -- apply in_mixedCapsName_acronym in H as [H _].
           now apply acronymMsg_kind in H.
    + intros H. apply in_flat_map. exists (GenDecl tok specs). split; [exact Hdecl | ].
      cbn [mixedCapsDecl]. apply in_flat_map. exists (ValueSpec names typ values).
      split; [exact Hspec | ]. cbn [mixedCapsSpec]. apply in_flat_map.
      exists name. split; [exact Hname | ]. now apply acronym_emitted_for_name.
Qed.

(** ** The exported-doc rule *)

(** What one function declaration adds to the diagnostics: the output of
    the doc rule, then messages of the four other rules. *)
Lemma funcDeclRules_parts (path : string) (fs : FileSet) (fn : FuncDecl)
  (out : list string) :
  funcDeclRules path fs fn = Some out ->
  let line := PositionLine fs (FuncPos fn) in
  let name := Name (FuncName fn) in
  exists others,
    out = docRule path line fn ++ others
    /\ forall d, In d others ->
         d = getPrefixMsg path line name
         \/ (exists tName, d = helperMsg path line name tName)
         \/ d = lowercaseMsg path line name
         \/ d = structParamMsg path line name.
Proof.
  intros H line name. subst line name. unfold funcDeclRules in H.
  destruct (helperRule path (PositionLine fs (FuncPos fn)) fn) as [helper|] eqn:Hh;
    [ | discriminate].
  cbn [mbind option_bind] in H. injection H as <-.
  eexists. split; [reflexivity | ]. intros d Hd.
  apply in_app_or in Hd as [Hd | Hd]; [ | apply in_app_or in Hd as [Hd | Hd];
    [ | apply in_app_or in Hd as [Hd | Hd]]].
  - unfold getPrefixRule in Hd. destruct (HasPrefix _ "Get"); [ | contradiction].
    destruct Hd as [<- | []]. now left.
  - right. left. unfold helperRule in Hh.
    destruct (isHelperCandidate path fn); [ | injection Hh as <-; contradiction].
    destruct (nonEmpty _); [ | injection Hh as <-; contradiction].
    destruct (Body fn) as [body|]; [ | discriminate].
    destruct (anyStmt _ _); injection Hh as <-; [contradiction | ].
    destruct Hd as [<- | []]. eexists. reflexivity.
  - right. right. left. unfold lowercaseRule in Hd.
    destruct (isHelperCandidate path fn); [ | contradiction].
    destruct (Name (FuncName fn)) as [|c rest] eqn:E; [contradiction | ].
    destruct (String.eqb _ _); [ | contradiction].
    now destruct Hd as [<- | []].
  - right. right. right. rewrite checkStructParameterUsage_count in Hd.
    destruct (1 <? _)%nat; [ | contradiction]. now destruct Hd as [<- | []].
Qed.

Lemma funcDeclRules_returns (path : string) (fs : FileSet) (fn : FuncDecl) :
  Body fn <> None -> exists out, funcDeclRules path fs fn = Some out.
Proof.
  intros Hbody. unfold funcDeclRules, helperRule.
  destruct (isHelperCandidate path fn); [ | eexists; reflexivity].
  destruct (nonEmpty _); [ | eexists; reflexivity].
  destruct (Body fn) as [body|]; [ | congruence].
  destruct (anyStmt _ _); eexists; reflexivity.
Qed.


(** A comment group whose text is empty, one that only holds a directive
    for instance, is documentation to the rule: it is asked for its
    period. *)
Lemma docRule_empty_text (path : string) (line : Z) (fn : FuncDecl) :
  IsExported (Name (FuncName fn)) = true ->
  HasPrefix (Name (FuncName fn)) "Test" = false ->
  Doc fn = Some EmptyString ->
  docRule path line fn = [docPeriodMsg path line].
Proof.
  intros Hexp Htest Hdoc. unfold docRule. now rewrite Hexp, Htest, Hdoc.
Qed.

(** ** Further properties: the structure of a test file *)

Lemma testFunctions_have_bodies (decls : list Decl) (fn : FuncDecl) :
  In fn (testFunctions decls) -> Body fn <> None.
Proof.
  unfold testFunctions. intros H. apply in_flat_map in H as [decl [_ H]].
  destruct decl as [fn' | tok specs]; [ | contradiction].
  destruct (isTestFunction fn') eqn:E; [ | contradiction].
  destruct H as [<- | []]. unfold isTestFunction in E.
  destruct (Body fn'); [congruence | discriminate].
Qed.

Lemma validateTestFileStructure_spec_fact (path : string) (f : File) :
  validateTestFileStructure path f
  = Some ((if existsb isTestMainHook (Decls f) then [] else [missingTestMainMsg path])
          ++ match testFunctions (Decls f) with
             | [] => [noTestFuncsMsg path]
             | first :: others =>
                 (match others with [] => [] | _ :: _ => [multipleTestsMsg path] end)
                 ++ (if lacksTableShape first
                     then [notTableDrivenMsg path (Name (FuncName first))] else [])
             end).
Proof.
  unfold validateTestFileStructure. rewrite collectTests_spec. cbn [orb app].
  destruct (existsb isTestMainHook (Decls f)); cbn [negb];
    destruct (testFunctions (Decls f)) as [|first others] eqn:E; try reflexivity.
  all: assert (Hbody : Body first <> None)
         by (apply (testFunctions_have_bodies (Decls f)); rewrite E; now left).
  all: unfold tableDrivenCheck, lacksTableShape, hasTableShape.
  all: destruct (Body first) as [body|]; [ | congruence].
  all: destruct others; cbn [length Nat.ltb Nat.leb];
       destruct (anyStmt setsSliceDecl (BlockStmt body) && anyStmt setsForLoop (BlockStmt body));
       reflexivity.
Qed.

(** X1.  [validateTestFileStructure] always returns, and its diagnostics are
    decided by three facts about the declarations: whether there is a
    [TestMain] hook, how many test functions there are, and whether the
    first of them has the table-driven shape.  Without test function the
    rule ends with "no test functions found". *)
Theorem validateTestFileStructure_spec (path : string) (f : File) :
  validateTestFileStructure path f
  = Some ((if existsb isTestMainHook (Decls f) then [] else [missingTestMainMsg path])
          ++ match testFunctions (Decls f) with
             | [] => [noTestFuncsMsg path]
             | first :: others =>
                 (match others with [] => [] | _ :: _ => [multipleTestsMsg path] end)
                 ++ (if lacksTableShape first
                     then [notTableDrivenMsg path (Name (FuncName first))] else [])
             end).
Proof. exact (validateTestFileStructure_spec_fact path f). Qed.

(** X2.  A test file gets no structure diagnostic exactly when it has the
    [TestMain] hook and a single test function, whose body holds both a
    table and a range loop. *)
Theorem validateTestFileStructure_clean_iff (path : string) (f : File) :
  validateTestFileStructure path f = Some []
  <-> existsb isTestMainHook (Decls f) = true
      /\ exists test body,
           testFunctions (Decls f) = [test]
           /\ Body test = Some body
           /\ hasTableShape body = true.
Proof.
  rewrite validateTestFileStructure_spec_fact. split.
  - intros H. injection H as H.
    destruct (existsb isTestMainHook (Decls f)); [ | discriminate].
    split; [reflexivity | ].
    destruct (testFunctions (Decls f)) as [|test [|second others]]; try discriminate.
    unfold lacksTableShape in H. destruct (Body test) as [body|] eqn:Hb; [ | discriminate].
    exists test, body. split; [reflexivity | ]. split; [exact Hb | ].
    destruct (hasTableShape body); [reflexivity | discriminate].
  - intros [-> [test [body [-> [Hbody Hshape]]]]].
    unfold lacksTableShape. now rewrite Hbody, Hshape.
Qed.

(** ** Further properties: panics *)

Lemma helperRule_None_iff (path : string) (line : Z) (fn : FuncDecl) :
  helperRule path line fn = None <-> walksNilBody path fn = true.
Proof.
  unfold helperRule, walksNilBody, paramList.
  destruct (isHelperCandidate path fn); [ | easy].
  destruct (Params fn) as [params|]; cbn [andb findTName nonEmpty]; [ | easy].
  destruct (nonEmpty (findTName params)); [ | easy].
  destruct (Body fn) as [body|]; [ | easy].
  destruct (anyStmt _ _); easy.
Qed.

Lemma funcDeclLoop_None_iff (path : string) (fs : FileSet) (decls : list Decl) :
  funcDeclLoop path fs decls = None
  <-> exists fn, In (FuncDeclD fn) decls /\ walksNilBody path fn = true.
Proof.
  induction decls as [|decl rest IH]; cbn [funcDeclLoop].
  - split; [discriminate | intros [fn [[] _]]].
  - destruct decl as [fn | tok specs].
    + unfold funcDeclRules.
      destruct (helperRule path (PositionLine fs (FuncPos fn)) fn) as [helper|] eqn:Hh.
      * cbn [mbind option_bind].
        assert (Hfn : walksNilBody path fn = false).
        { destruct (walksNilBody path fn) eqn:E; [ | reflexivity].
          apply (helperRule_None_iff path (PositionLine fs (FuncPos fn))) in E. congruence. }
        destruct (funcDeclLoop path fs rest) as [more|]; cbn [mbind option_bind].
        -- split; [discriminate | ].
           intros [fn' [[[= <-] | Hin] Hw]]; [congruence | ].
           destruct IH as [_ IH]. discriminate IH. now exists fn'.
        -- split; [ | reflexivity]. intros _.
           destruct IH as [IH _]. destruct (IH eq_refl) as [fn' [Hin Hw]].
           exists fn'. split; [now right | exact Hw].
      * cbn [mbind option_bind]. split; [ | reflexivity]. intros _.
        exists fn. split; [now left | ].
        now apply (helperRule_None_iff path (PositionLine fs (FuncPos fn)) fn).
    + rewrite IH. split; intros [fn [Hin Hw]]; exists fn; (split; [ | exact Hw]).
      * now right.
      * destruct Hin as [[=] | Hin]; exact Hin.
Qed.

(** X3.  [validateGoFile] panics exactly on a parsed test file that declares a
    function without receiver, without "Test" prefix and without body
    which names a [*testing.T] parameter: the search for the call of
    [Helper] then walks a nil body.  On any other file it returns. *)
Theorem validateGoFile_panics_iff
  (sf : SourceFile) (order : list Object) (errs : list string) :
  validateGoFile sf order errs = None
  <-> exists fs f fn,
        Parse sf = Some (fs, f)
        /\ In (FuncDeclD fn) (Decls f)
        /\ walksNilBody (Path sf) fn = true.
Proof.
  unfold validateGoFile. destruct (Parse sf) as [[fs f]|].
  - assert (Hs : exists structure,
               (if HasSuffix (Path sf) "_test.go"
                then validateTestFileStructure (Path sf) f else Some []) = Some structure).
    { destruct (HasSuffix (Path sf) "_test.go"); [ | now eexists].
      rewrite validateTestFileStructure_spec_fact. now eexists. }
    destruct Hs as [structure ->]. cbn [mbind option_bind].
    destruct (funcDeclLoop (Path sf) fs (Decls f)) as [funcs|] eqn:E;
      cbn [mbind option_bind].
    + split; [discriminate | ]. intros [fs' [f' [fn [[= <- <-] H]]]].
      assert (N : funcDeclLoop (Path sf) fs (Decls f) = None)
        by (apply funcDeclLoop_None_iff; now exists fn).
      congruence.
    + split; [ | reflexivity]. intros _.
      apply funcDeclLoop_None_iff in E as [fn H]. now exists fs, f, fn.
  - split; [discriminate | ]. intros [fs [f [fn [[=] _]]]].
Qed.

(** ** Further properties: the diagnostics are only appended to *)

Lemma validateGoFile_frame (sf : SourceFile) (order : list Object) (errs : list string) :
  validateGoFile sf order errs = (fun new => errs ++ new) <$> validateGoFile sf order [].
Proof.
  unfold validateGoFile. destruct (Parse sf) as [[fs f]|]; [ | reflexivity].
  destruct (if HasSuffix (Path sf) "_test.go"
            then validateTestFileStructure (Path sf) f else Some []) as [structure|];
    [ | reflexivity].
  destruct (funcDeclLoop (Path sf) fs (Decls f)) as [funcs|]; reflexivity.
Qed.

(** X4.  A walk over several files returns the diagnostics it started with,
    unchanged, followed by what each file adds on its own, file after file
    in the order of the walk; it panics when one of the files does. *)
Theorem validateFiles_concat (jobs : list (SourceFile * list Object)) (errs : list string) :
  validateFiles jobs errs
  = (news ← mapM fileDiagnostics jobs; Some (errs ++ concat news)).
Proof.
  revert errs. induction jobs as [|[sf order] rest IH]; intros errs.
  - cbn. now rewrite app_nil_r.
  - cbn [validateFiles mapM]. rewrite validateGoFile_frame.
    change (fileDiagnostics (sf, order)) with (validateGoFile sf order []).
    destruct (validateGoFile sf order []) as [new|]; [ | reflexivity].
    cbn [fmap option_fmap option_map mbind option_bind]. rewrite IH.
    destruct (mapM fileDiagnostics rest) as [news|]; [ | reflexivity].
    cbn [mbind option_bind mret option_ret concat]. now rewrite app_assoc.
Qed.

(** ** Further properties: the literal of the error-string rule *)

Lemma untilQuote_literal (m post : string) :
  allBytes isLiteralByte m = true ->
  untilQuote (m +:+ String dquote post) = Some m.
Proof.
  induction m as [|c m IH]; intros H.
  - rewrite append_nil_l. cbn [untilQuote]. now rewrite Ascii.eqb_refl.
  - cbn [allBytes] in H. apply andb_true_iff in H as [Hc H].
    unfold isLiteralByte in Hc. apply andb_true_iff in Hc as [Hq Hn].
    rewrite append_cons. cbn [untilQuote].
    apply negb_true_iff in Hq, Hn. rewrite Hq, Hn, (IH H). reflexivity.
Qed.

Lemma extractStringLiteral_first_literal_fact (pre m post : string) :
  allBytes isNoQuote pre = true ->
  (allBytes isLiteralByte m = true ->
   extractStringLiteral (pre +:+ String dquote (m +:+ String dquote post)) = m)
  /\ extractStringLiteral pre = EmptyString.
Proof.
  induction pre as [|c pre IH]; intros Hpre.
  - split; [ | reflexivity]. intros Hm. rewrite append_nil_l.
    cbn [extractStringLiteral]. rewrite Ascii.eqb_refl. now rewrite untilQuote_literal.
  - cbn [allBytes] in Hpre. apply andb_true_iff in Hpre as [Hc Hpre].
    unfold isNoQuote in Hc. apply negb_true_iff in Hc.
    destruct (IH Hpre) as [IH1 IH2]. split.
    + intros Hm. rewrite append_cons. cbn [extractStringLiteral]. rewrite Hc. now apply IH1.
    + cbn [extractStringLiteral]. now rewrite Hc.
Qed.

(** X5.  [extractStringLiteral] gives back the first quoted literal of a line:
    what stands between the first double quote and the next one, when that
    holds no newline.  A line without double quote has the empty literal. *)
Theorem extractStringLiteral_first_literal (pre m post : string) :
  allBytes isNoQuote pre = true ->
  (allBytes isLiteralByte m = true ->
   extractStringLiteral (pre +:+ String dquote (m +:+ String dquote post)) = m)
  /\ extractStringLiteral pre = EmptyString.
Proof. exact (extractStringLiteral_first_literal_fact pre m post). Qed.

Lemma upperByte_fixed (c : ascii) : Ascii.eqb (upperByte c) c = negb (isLowerByte c).
Proof.
  unfold upperByte. destruct (isLowerByte c) eqn:L; [ | apply Ascii.eqb_refl].
  apply Ascii.eqb_neq. intros E. apply (f_equal nat_of_ascii) in E.
  unfold isLowerByte, byte in *. apply andb_true_iff in L as [L1 L2].
  apply Nat.leb_le in L1, L2. rewrite nat_ascii_embedding in E; lia.
Qed.

(** X6.  On a line that holds one of the three calls, what the error-string
    rule emits is decided by the first quoted literal of the line alone,
    wherever on the line it stands: "capitalized" when its first byte is
    ASCII and no lower-case letter (or when it starts with U+FFFD),
    "should not end with '.'" when its last byte is a period, in that
    order; a line without any of the calls gets nothing. *)
Theorem errorStringRule_spec
  (path : string) (lineNo : Z) (pre post rest : string) (c : ascii) :
  let line := pre +:+ String dquote (String c rest +:+ String dquote post) in
  allBytes isNoQuote pre = true ->
  allBytes isLiteralByte (String c rest) = true ->
  errorStringRule path lineNo line
  = if callsErrorReport line
    then (if firstByteIsOwnUpper c rest then [capitalizedMsg path lineNo] else [])
         ++ (if HasSuffix (String c rest) "." then [periodMsg path lineNo] else [])
    else [].
Proof.
  intros line Hpre Hm. unfold errorStringRule, callsErrorReport.
  destruct (Contains line "t.Errorf(" || Contains line "t.Error("
            || Contains line "fmt.Errorf("); [ | reflexivity].
  unfold line. rewrite (proj1 (extractStringLiteral_first_literal_fact pre _ post Hpre) Hm).
  cbn [nonEmpty]. now rewrite startsWithOwnUpper_spec.
Qed.

(** ** Further properties: naming of the functions of a test file *)

(** X7.  In a test file, a function without receiver whose name does not start
    with "Test" gets the "must start with lowercase letter" diagnostic
    exactly when the first byte of its name is ASCII and no lower-case
    letter: an upper-case letter, but also an underscore.  A name that
    starts with a letter outside ASCII is never flagged, whatever its case. *)
Theorem lowercaseRule_flags_iff (path : string) (line : Z) (fn : FuncDecl) :
  In (lowercaseMsg path line (Name (FuncName fn))) (lowercaseRule path line fn)
  <-> isHelperCandidate path fn = true
      /\ exists c rest,
           Name (FuncName fn) = String c rest
           /\ isASCII c = true /\ isLowerByte c = false.
Proof.
  unfold lowercaseRule. destruct (isHelperCandidate path fn).
  - destruct (Name (FuncName fn)) as [|c rest] eqn:E.
    + split; [intros [] | intros [_ [c [rest [[=] _]]]]].
    + unfold ToUpperByte. destruct (isASCII c) eqn:A.
      * cbn [String.eqb]. rewrite upperByte_fixed.
        destruct (isLowerByte c) eqn:L; cbn [negb andb].
        -- split; [intros [] | ]. intros [_ [c' [rest' [[= <- <-] [_ L']]]]]. congruence.
        -- split; [ | intros _; now left]. intros _. split; [reflexivity | ].
           now exists c, rest.
      * assert (N : String.eqb runeError (String c EmptyString) = false).
        { apply String.eqb_neq. intros Q. apply (f_equal String.length) in Q.
          discriminate. }
        rewrite N. split; [intros [] | ].
        intros [_ [c' [rest' [[= <- <-] [A' _]]]]]. congruence.
  - split; [intros [] | intros [[=] _]].
Qed.

Lemma snakeCase_not_alnum (name : string) :
  snakeCase name = true -> allBytes isAlnumByte name = false.
Proof.
  unfold snakeCase. intros H. apply Contains_spec in H as [a [b ->]].
  rewrite allBytes_app. change ("_" +:+ b) with (String "_" b).
  cbn [allBytes]. change (isAlnumByte "_") with false. apply andb_false_r.
Qed.

Lemma snakeCase_not_mixedCaps (name : string) :
  snakeCase name = true ->
  exportedMixedCaps name = false /\ unexportedMixedCaps name = false.
Proof.
  intros H. pose proof (snakeCase_not_alnum name H) as Hn.
  unfold exportedMixedCaps, unexportedMixedCaps.
  destruct name as [|c rest]; [now split | ].
  cbn [allBytes] in Hn. apply andb_false_iff in Hn as [Hc | Hrest].
  - unfold isAlnumByte in Hc. apply orb_false_iff in Hc as [Hc _].
    apply orb_false_iff in Hc as [-> ->]. now split.
  - rewrite Hrest, !andb_false_r. now split.
Qed.

(** X8.  A function name with an underscore is reported twice by the MixedCaps
    check: once for using snake_case and once for not being MixedCaps, as
    an exported or as an unexported name, since the underscore is outside
    the letters and digits the MixedCaps patterns allow.  Both diagnostics
    carry line 0. *)
Theorem underscore_name_reported_twice (path : string) (f : File) (fn : FuncDecl) :
  In (FuncDeclD fn) (Decls f) ->
  snakeCase (Name (FuncName fn)) = true ->
  In (snakeCaseMsg path 0 "function" (Name (FuncName fn))) (checkMixedCaps path f)
  /\ In (if IsExported (Name (FuncName fn))
         then mixedCapsMsg path 0 "exported function" (Name (FuncName fn)) "MixedCaps"
         else mixedCapsMsg path 0 "unexported function" (Name (FuncName fn)) "mixedCaps")
        (checkMixedCaps path f).
Proof.
  intros Hin Hsnake. destruct (snakeCase_not_mixedCaps _ Hsnake) as [He Hu].
  unfold checkMixedCaps.
  split; apply in_flat_map; exists (FuncDeclD fn); (split; [exact Hin | ]);
    cbn [mixedCapsDecl]; unfold mixedCapsFunc;
    rewrite PositionLine_NewFileSet, Hsnake, He, Hu; cbn [negb].
  - now left.
  - apply in_or_app. right. apply in_or_app. left.
    destruct (IsExported (Name (FuncName fn))); now left.
Qed.

(** ** Further properties: where the diagnostics point *)

(** Membership in a concatenation of rule outputs, each a list of at most
    one message chosen by tests. *)
Ltac one_of_the_rules H :=
  repeat first
    [ apply in_app_or in H; destruct H as [H | H]
    | match type of H with
      | In _ (if ?c then _ else _) => destruct c
      | In _ (match ?o with Some _ => _ | None => _ end) => destruct o
      end ];
  try contradiction;
  try (destruct H as [H | []]).

Lemma scanLine_located (path : string) (lineNo : Z) (line d : string) :
  In d (scanLine path lineNo line) -> exists msg, d = located path lineNo msg.
Proof.
  unfold scanLine, errorStringRule, logRule. cbv zeta. intros H.
  one_of_the_rules H; subst d;
    unfold sleepMsg, cfgpluginMsg, concatMsg, capitalizedMsg, periodMsg,
      logArgsMsg, logfArgsMsg; eexists; reflexivity.
Qed.

Lemma scanLines_inv (path : string) (lines : list string) (start : Z) (d : string) :
  In d (scanLines path start lines) ->
  exists i line,
    nth_error lines i = Some line /\ In d (scanLine path (start + Z.of_nat i) line).
Proof.
  revert start. induction lines as [|l rest IH]; intros start H; [contradiction | ].
  cbn [scanLines] in H. apply in_app_or in H as [H | H].
  - exists 0%nat, l. split; [reflexivity | ]. now rewrite Z.add_0_r.
  - apply IH in H as [i [line [Hnth H]]]. exists (S i), line. split; [exact Hnth | ].
    now replace (start + Z.of_nat (S i))%Z with (start + 1 + Z.of_nat i)%Z by lia.
Qed.

Lemma scanFileForPatterns_lines_fact (path : string) (lines : list string) (d : string) :
  In d (scanFileForPatterns path lines)
  <-> exists i line,
        nth_error lines i = Some line
        /\ (i < length lines)%nat
        /\ In d (scanLine path (1 + Z.of_nat i) line)
        /\ exists msg, d = located path (1 + Z.of_nat i) msg.
Proof.
  unfold scanFileForPatterns. split.
  - intros H. apply scanLines_inv in H as [i [line [Hnth H]]].
    exists i, line. split; [exact Hnth | ]. split.
    + apply nth_error_Some. congruence.
    + split; [exact H | now apply scanLine_located in H].
  - intros [i [line [Hnth [_ [H _]]]]]. now apply (scanLines_nth path lines 1 i line).
Qed.

(** X9.  A diagnostic is in the output of [scanFileForPatterns] exactly when the
    rules give it on one of the lines of the file, under the number of that
    line counted from 1; so every diagnostic of the scan carries the path
    and a line number between 1 and the number of lines, and a file
    without lines gets none. *)
Theorem scanFileForPatterns_lines (path : string) (lines : list string) (d : string) :
  In d (scanFileForPatterns path lines)
  <-> exists i line,
        nth_error lines i = Some line
        /\ (i < length lines)%nat
        /\ In d (scanLine path (1 + Z.of_nat i) line)
        /\ exists msg, d = located path (1 + Z.of_nat i) msg.
Proof. exact (scanFileForPatterns_lines_fact path lines d). Qed.

Lemma funcDeclLoop_inv (path : string) (fs : FileSet) (decls : list Decl)
  (out : list string) (d : string) :
  funcDeclLoop path fs decls = Some out -> In d out ->
  exists fn here,
    In (FuncDeclD fn) decls /\ funcDeclRules path fs fn = Some here /\ In d here.
Proof.
  revert out. induction decls as [|decl rest IH]; intros out Hout Hd.
  - injection Hout as <-. contradiction.
  - cbn [funcDeclLoop] in Hout. destruct decl as [fn | tok specs].
    + destruct (funcDeclRules path fs fn) as [here|] eqn:Hhere; [ | discriminate].
      destruct (funcDeclLoop path fs rest) as [more|]; [ | discriminate].
      cbn [mbind option_bind] in Hout. injection Hout as <-.
      apply in_app_or in Hd as [Hd | Hd].
      * exists fn, here. split; [now left | now split].
      * destruct (IH more eq_refl Hd) as [fn' [here' [Hin H]]].
        exists fn', here'. split; [now right | exact H].
    + destruct (IH out Hout Hd) as [fn' [here' [Hin H]]].
      exists fn', here'. split; [now right | exact H].
Qed.

Lemma located_starts_with_path (path : string) (line : Z) (msg : string) :
  exists rest, located path line msg = path +:+ ":" +:+ rest.
Proof. unfold located. eexists. reflexivity. Qed.

(** X10.  Every diagnostic [validateGoFile] adds for a file starts with the path
    of that file and a colon: no rule reports under another name. *)
Theorem validateGoFile_reports_own_path
  (sf : SourceFile) (order : list Object) (out : list string) (d : string) :
  validateGoFile sf order [] = Some out ->
  In d out ->
  exists rest, d = Path sf +:+ ":" +:+ rest.
Proof.
  unfold validateGoFile. destruct (Parse sf) as [[fs f]|].
  - destruct (if HasSuffix (Path sf) "_test.go"
              then validateTestFileStructure (Path sf) f else Some [])
      as [structure|] eqn:Hs; [ | discriminate].
    destruct (funcDeclLoop (Path sf) fs (Decls f)) as [funcs|] eqn:Hf; [ | discriminate].
    cbn [mbind option_bind app]. intros [= <-] Hd.
    apply in_app_or in Hd as [Hd | Hd]; [ | apply in_app_or in Hd as [Hd | Hd];
      [ | apply in_app_or in Hd as [Hd | Hd]; [ | apply in_app_or in Hd as [Hd | Hd];
        [ | apply in_app_or in Hd as [Hd | Hd]]]]].
    + destruct (HasSuffix (Path sf) "_test.go");
        [ | injection Hs as <-; contradiction].
      rewrite validateTestFileStructure_spec_fact in Hs. injection Hs as <-.
      apply in_app_or in Hd as [Hd | Hd].
      * destruct (existsb isTestMainHook (Decls f)); [contradiction | ].
        destruct Hd as [<- | []]. unfold missingTestMainMsg. eexists. reflexivity.
      * destruct (testFunctions (Decls f)) as [|first others].
        -- destruct Hd as [<- | []]. unfold noTestFuncsMsg. eexists. reflexivity.
        -- apply in_app_or in Hd as [Hd | Hd].
           ++ destruct others; [contradiction | ].
              destruct Hd as [<- | []]. unfold multipleTestsMsg. eexists. reflexivity.
           ++ destruct (lacksTableShape first); [ | contradiction].
              destruct Hd as [<- | []]. unfold notTableDrivenMsg. eexists. reflexivity.
    + destruct (funcDeclLoop_inv _ _ _ _ _ Hf Hd) as [fn [here [_ [Hhere Hin]]]].
      destruct (funcDeclRules_parts _ _ _ _ Hhere) as [others [-> Hothers]].
      apply in_app_or in Hin as [Hin | Hin].
      * unfold docRule in Hin. one_of_the_rules Hin; subst d; apply located_starts_with_path.
      * apply Hothers in Hin as [-> | [[tName ->] | [-> | ->]]];
          apply located_starts_with_path.
    + unfold scopeLoop in Hd. apply in_flat_map in Hd as [obj [_ Hd]].
      unfold underscoreRule in Hd. one_of_the_rules Hd. subst d.
      apply located_starts_with_path.
    + apply in_flat_map in Hd as [decl [_ Hd]].
      destruct decl as [fn | [] specs]; try contradiction.
      cbn [repeatsTypeDecl] in Hd. apply in_flat_map in Hd as [spec [_ Hd]].
      destruct spec as [p | names [typ|] values | name typ]; try contradiction.
      cbn [repeatsTypeSpec] in Hd. apply in_flat_map in Hd as [name [_ Hd]].
      unfold repeatsTypeName in Hd. one_of_the_rules Hd. subst d.
      apply located_starts_with_path.
    + unfold checkMixedCaps in Hd. apply in_flat_map in Hd as [decl [_ Hd]].
      destruct decl as [fn | tok specs]; cbn [mixedCapsDecl] in Hd.
      * apply mixedCapsFunc_line_zero in Hd as [msg ->]. apply located_starts_with_path.
      * apply in_flat_map in Hd as [spec [_ Hd]].
        destruct spec as [p | names typ values | name typ]; cbn [mixedCapsSpec] in Hd.
        -- contradiction.
        -- apply in_flat_map in Hd as [id [_ Hd]].
           apply mixedCapsName_line_zero in Hd as [msg ->]. apply located_starts_with_path.
        -- apply mixedCapsName_line_zero in Hd as [msg ->]. apply located_starts_with_path.
    + apply scanFileForPatterns_lines_fact in Hd as [i [line [_ [_ [_ [msg ->]]]]]].
      apply located_starts_with_path.
  - intros [= <-] [<- | []]. unfold parseFailureMsg. eexists. reflexivity.
Qed.

(** ** Further properties: the log rules *)

Lemma stripOneOf_ink (seqs : list string) (a : ascii) (x : string) :
  forallb startsOutsideASCII seqs = true ->
  isASCII a = true ->
  stripOneOf seqs (String a x) = None.
Proof.
  intros Hseqs Ha. induction seqs as [|w seqs IH]; [reflexivity | ].
  cbn [forallb] in Hseqs. apply andb_true_iff in Hseqs as [Hw Hseqs].
  cbn [stripOneOf]. destruct w as [|b w]; [discriminate | ].
  cbn [HasPrefix startsOutsideASCII] in *.
  destruct (Ascii.eqb_spec a b) as [-> | _]; [ | now apply IH].
  rewrite Ha in Hw. discriminate.
Qed.

Lemma trimSpaces_lead (wide : list string) (fuel : nat) (lead : string)
  (a : ascii) (x : string) :
  forallb startsOutsideASCII wide = true ->
  isInkByte a = true ->
  allBytes isAsciiSpace lead = true ->
  (String.length lead <= fuel)%nat ->
  trimSpaces wide fuel (lead +:+ String a x) = String a x.
Proof.
  intros Hwide Ha. unfold isInkByte in Ha. apply andb_true_iff in Ha as [Hascii Hink].
  apply negb_true_iff in Hink.
  revert fuel. induction lead as [|c lead IH]; intros fuel Hall Hfuel.
  - rewrite append_nil_l. destruct fuel as [|fuel]; [reflexivity | ].
    cbn [trimSpaces stripSpace]. now rewrite Hink, stripOneOf_ink.
  - cbn [allBytes] in Hall. apply andb_true_iff in Hall as [Hc Hall].
    cbn [String.length] in Hfuel. destruct fuel as [|fuel]; [lia | ].
    rewrite append_cons. cbn [trimSpaces stripSpace]. rewrite Hc.
    apply IH; [exact Hall | lia].
Qed.

(** [strings.TrimSpace] takes the ASCII white space off both ends of a
    text that starts and ends with an ASCII byte that is no white space,
    and leaves the text between them as it is. *)
Lemma TrimSpace_framed (lead mid trail : string) (a z : ascii) :
  isInkByte a = true -> isInkByte z = true ->
  allBytes isAsciiSpace lead = true -> allBytes isAsciiSpace trail = true ->
  TrimSpace (lead +:+ String a (mid +:+ String z trail))
  = String a (mid +:+ String z EmptyString).
Proof.
  intros Ha Hz Hlead Htrail. unfold TrimSpace, TrimLeftSpace.
  rewrite (trimSpaces_lead wideSpaces); [ | reflexivity | exact Ha | exact Hlead | ].
  2: { rewrite length_append. lia. }
  unfold TrimRightSpace.
  assert (R : rev (String a (mid +:+ String z trail))
              = rev trail +:+ String z (rev mid +:+ String a EmptyString)).
  { cbn [rev]. rewrite rev_app. cbn [rev]. now rewrite !append_assoc. }
  rewrite R, (trimSpaces_lead (map rev wideSpaces)); [ | reflexivity | exact Hz | | ].
  - cbn [rev]. rewrite rev_app, rev_involutive. reflexivity.
  - now rewrite allBytes_rev.
  - rewrite length_rev. cbn [String.length]. rewrite length_append. cbn [String.length]. lia.
Qed.

Lemma dropBytes_app (a b : string) : dropBytes (String.length a) (a +:+ b) = b.
Proof. induction a as [|c a IH]; [now destruct b | exact IH]. Qed.

Lemma splitLast_snoc (s : string) (z : ascii) :
  splitLast (s +:+ String z EmptyString) = Some (s, z).
Proof.
  induction s as [|c s IH]; [reflexivity | ].
  rewrite append_cons. cbn [splitLast]. now rewrite IH.
Qed.

Lemma matchCall_call (open args : string) :
  Contains args newline = false ->
  matchCall open (open +:+ args +:+ ")") = Some args.
Proof.
  intros Hnl. unfold matchCall.
  rewrite HasPrefix_app, dropBytes_app, splitLast_snoc.
  fold newline. now rewrite Hnl.
Qed.

Lemma splitTopLevel_not_nil (inQuotes : bool) (current args : string) :
  (1 <= length (splitTopLevel inQuotes current args))%nat.
Proof.
  revert inQuotes current. induction args as [|r t IH]; intros inQuotes current;
    cbn [splitTopLevel]; [cbn; lia | ].
  destruct (Ascii.eqb r dquote); [apply IH | ].
  destruct (Ascii.eqb r "," && negb inQuotes); [cbn [length]; lia | apply IH].
Qed.

(** The split of the arguments has a single part exactly when the comma
    scan finds no comma outside quotes. *)
Lemma splitTopLevel_single (inQuotes : bool) (current args : string) :
  (length (splitTopLevel inQuotes current args) <? 2)%nat
  = negb (commaOutsideQuotes inQuotes args).
Proof.
  revert inQuotes current. induction args as [|r t IH]; intros inQuotes current;
    cbn [splitTopLevel commaOutsideQuotes]; [reflexivity | ].
  destruct (Ascii.eqb r dquote); [apply IH | ].
  destruct (Ascii.eqb r "," && negb inQuotes); [ | apply IH].
  cbn [length negb]. apply Nat.ltb_ge.
  pose proof (splitTopLevel_not_nil inQuotes EmptyString t). lia.
Qed.

(** X11.  In a test file, on a line that is a call of [t.Log] or of [t.Logf]
    between ASCII white space, the two log rules apply the same test to the
    text between the parentheses, with opposite verdicts: [t.Log] is
    flagged when that text has a comma outside double quotes, [t.Logf] when
    it has none.  The message quotes the trimmed line. *)
Theorem logRule_spec (path : string) (lineNo : Z) (lead args trail : string) :
  HasSuffix path "_test.go" = true ->
  allBytes isAsciiSpace lead = true -> allBytes isAsciiSpace trail = true ->
  Contains args newline = false ->
  logRule path lineNo (lead +:+ "t.Log(" +:+ args +:+ ")" +:+ trail)
  = (if commaOutsideQuotes false args
     then [logArgsMsg path lineNo ("t.Log(" +:+ args +:+ ")")] else [])
  /\ logRule path lineNo (lead +:+ "t.Logf(" +:+ args +:+ ")" +:+ trail)
     = (if commaOutsideQuotes false args
        then [] else [logfArgsMsg path lineNo ("t.Logf(" +:+ args +:+ ")")]).
Proof.
  intros Hpath Hlead Htrail Hnl. unfold logRule. rewrite Hpath. cbv zeta. split.
  - assert (T : TrimSpace (lead +:+ "t.Log(" +:+ args +:+ ")" +:+ trail)
                = "t.Log(" +:+ args +:+ ")").
    { exact (TrimSpace_framed lead (".Log(" +:+ args) trail "t" ")"
               eq_refl eq_refl Hlead Htrail). }
    rewrite T, (matchCall_call "t.Log(" args Hnl).
    assert (N : matchCall "t.Logf(" ("t.Log(" +:+ args +:+ ")") = None) by reflexivity.
    rewrite N. now rewrite app_nil_r.
  - assert (T : TrimSpace (lead +:+ "t.Logf(" +:+ args +:+ ")" +:+ trail)
                = "t.Logf(" +:+ args +:+ ")").
    { exact (TrimSpace_framed lead (".Logf(" +:+ args) trail "t" ")"
               eq_refl eq_refl Hlead Htrail). }
    rewrite T, (matchCall_call "t.Logf(" args Hnl).
    assert (N : matchCall "t.Log(" ("t.Logf(" +:+ args +:+ ")") = None) by reflexivity.
    rewrite N, splitTopLevel_single. cbn [app].
    now destruct (commaOutsideQuotes false args).
Qed.

(** X12.  The comma scan steps over a quoted argument: commas between a double
    quote and the next one are not counted. *)
Theorem commaOutsideQuotes_skips_literal (literal rest : string) :
  allBytes isNoQuote literal = true ->
  commaOutsideQuotes false (String dquote (literal +:+ String dquote rest))
  = commaOutsideQuotes false rest.
Proof.
  intros H. cbn [commaOutsideQuotes]. rewrite Ascii.eqb_refl. cbn [negb].
  induction literal as [|c literal IH].
  - rewrite append_nil_l. cbn [commaOutsideQuotes]. now rewrite Ascii.eqb_refl.
  - cbn [allBytes] in H. apply andb_true_iff in H as [Hc H].
    unfold isNoQuote in Hc. apply negb_true_iff in Hc.
    rewrite append_cons. cbn [commaOutsideQuotes]. rewrite Hc.
    cbn [negb]. rewrite andb_false_r. now apply IH.
Qed.

(** ** Further properties: a variable that repeats its type *)

Lemma allASCII_app (a b : string) : allASCII (a +:+ b) = allASCII a && allASCII b.
Proof.
  induction a as [|c a IH]; [reflexivity | ].
  rewrite append_cons. cbn [allASCII]. now rewrite IH, andb_assoc.
Qed.

Lemma mapBytes_app (f : ascii -> ascii) (a b : string) :
  mapBytes f (a +:+ b) = mapBytes f a +:+ mapBytes f b.
Proof.
  induction a as [|c a IH]; [reflexivity | ].
  rewrite append_cons. cbn [mapBytes]. now rewrite IH.
Qed.

Lemma mapBytes_app_inv (f : ascii -> ascii) (s a b : string) :
  mapBytes f s = a +:+ b ->
  exists s1 s2, s = s1 +:+ s2 /\ mapBytes f s1 = a /\ mapBytes f s2 = b.
Proof.
  revert s. induction a as [|c a IH]; intros s H.
  - exists EmptyString, s. now split.
  - destruct s as [|x s]; [discriminate | ].
    rewrite append_cons in H. cbn [mapBytes] in H. injection H as Hx H.
    destruct (IH s H) as [s1 [s2 [-> [H1 H2]]]].
    exists (String x s1), s2. split; [reflexivity | ]. split; [ | exact H2].
    cbn [mapBytes]. now rewrite Hx, H1.
Qed.

(** X13.  For a variable and a declared type whose names are ASCII, the
    "repeats its type" diagnostic is emitted exactly when some part of the
    variable's name is the type's name up to the case of its letters,
    wherever in the name it stands and whatever surrounds it. *)
Theorem repeatsTypeName_ascii_iff
  (path : string) (fs : FileSet) (typeName : string) (name : Ident) :
  allASCII (Name name) = true ->
  allASCII typeName = true ->
  In (repeatsTypeMsg path (PositionLine fs (NamePos name)) (Name name) typeName)
     (repeatsTypeName path fs typeName name)
  <-> exists pre part post,
        Name name = pre +:+ part +:+ post
        /\ mapBytes lowerByte part = mapBytes lowerByte typeName.
Proof.
  intros Hname Htype. unfold repeatsTypeName, ToLower. rewrite Hname, Htype.
  destruct (Contains (mapBytes lowerByte (Name name)) (mapBytes lowerByte typeName)) eqn:E.
  - split; [intros _ | intros _; now left].
    apply Contains_spec in E as [a [b E]].
    apply mapBytes_app_inv in E as [pre [tail [Hn [Ha E]]]].
    apply mapBytes_app_inv in E as [part [post [-> [Hp Hb]]]].
    now exists pre, part, post.
  - split; [intros [] | ]. intros [pre [part [post [Hn Hp]]]].
    assert (C : Contains (mapBytes lowerByte (Name name)) (mapBytes lowerByte typeName) = true).
    { apply Contains_spec. rewrite Hn, !mapBytes_app, Hp. now eexists _, _. }
    congruence.
Qed.

(** ** Further properties: the helper rule *)

(** X14.  A function the helper rule applies to is not flagged as soon as one of
    the statements of its body is the call of [Helper] on its
    [*testing.T] parameter; with an empty body it is flagged. *)
Theorem helperRule_call_suffices
  (path : string) (line : Z) (fn : FuncDecl) (body : list Stmt)
  (receiver method : Ident) (args : list Expr) :
  isHelperCandidate path fn = true ->
  nonEmpty (findTName (paramList fn)) = true ->
  Name receiver = findTName (paramList fn) ->
  Name method = "Helper" ->
  (Body fn = Some body ->
   In (ExprStmt (CallExpr (SelectorExpr (IdentExpr receiver) method) args)) body ->
   helperRule path line fn = Some [])
  /\ (Body fn = Some [] ->
      helperRule path line fn
      = Some [helperMsg path line (Name (FuncName fn)) (findTName (paramList fn))]).
Proof.
  intros Hcand Hname Hrecv Hmeth.
  assert (P : match Params fn with
              | Some params => findTName params
              | None => EmptyString
              end = findTName (paramList fn)).
  { unfold paramList. now destruct (Params fn). }
  unfold helperRule. rewrite Hcand, P, Hname. split.
  - intros -> Hin.
    assert (A : anyStmt (isHelperCall (findTName (paramList fn))) (BlockStmt body) = true).
    { cbn [anyStmt]. apply orb_true_iff. right. apply existsb_exists.
      eexists. split; [exact Hin | ].
      cbn [anyStmt anyExpr isHelperCall]. rewrite Hrecv, Hmeth, !String.eqb_refl.
      reflexivity. }
    now rewrite A.
  - now intros ->.
Qed.

(** ** Further properties: bare bug references in [.proto] files *)

Lemma matchItems_boundary (rest : list ReItem) (prev : option ascii) (s : string) :
  matchItems (ReBoundary :: rest) prev s
  = if atBoundary prev s then matchItems rest prev s else None.
Proof. reflexivity. Qed.

Lemma matchItems_lit (lit : string) (rest : list ReItem) (prev : option ascii) (s : string) :
  matchItems (ReLit lit :: rest) prev s
  = if HasPrefix s lit
    then matchItems rest (lastByteOr prev lit) (dropBytes (String.length lit) s)
    else None.
Proof. reflexivity. Qed.

Lemma matchItems_plus (class : ascii -> bool) (rest : list ReItem)
  (prev : option ascii) (s : string) :
  matchItems (RePlus class :: rest) prev s
  = match s with
    | EmptyString => None
    | String c t =>
        if class c then
          match matchItems (RePlus class :: rest) (Some c) t with
          | Some r => Some r
          | None => matchItems rest (Some c) t
          end
        else None
    end.
Proof. destruct s; reflexivity. Qed.

Lemma matchItems_capture (class : ascii -> bool) (n : nat) (rest : list ReItem)
  (prev : option ascii) (s : string) :
  matchItems (ReCapture class n :: rest) prev s
  = match takeClass class n s with
    | Some (group, s') =>
        match matchItems rest (lastByteOr prev group) s' with
        | Some (groups, remaining) => Some (group :: groups, remaining)
        | None => None
        end
    | None => None
    end.
Proof. reflexivity. Qed.

Lemma plus_sound (class : ascii -> bool) (rest : list ReItem) (s : string)
  (prev : option ascii) (r : list string * string) :
  matchItems (RePlus class :: rest) prev s = Some r ->
  exists run tail,
    s = run +:+ tail /\ nonEmpty run = true /\ allBytes class run = true
    /\ matchItems rest (lastByteOr prev run) tail = Some r.
Proof.
  revert prev. induction s as [|c t IH]; intros prev H; rewrite matchItems_plus in H;
    [discriminate | ].
  destruct (class c) eqn:Hc; [ | discriminate].
  destruct (matchItems (RePlus class :: rest) (Some c) t) as [r'|] eqn:E.
  - injection H as <-. destruct (IH (Some c) E) as [run [tail [-> [_ [Hall Hm]]]]].
    exists (String c run), tail. repeat split; [ | exact Hm].
    cbn [allBytes]. now rewrite Hc.
  - exists (String c EmptyString), t. repeat split; [ | exact H].
    cbn [allBytes]. now rewrite Hc.
Qed.

Lemma plus_stops (class : ascii -> bool) (rest : list ReItem) (prev : option ascii)
  (tail : string) :
  match firstByte tail with Some c => class c = false | None => True end ->
  matchItems (RePlus class :: rest) prev tail = None.
Proof.
  intros H. rewrite matchItems_plus. destruct tail as [|c t]; [reflexivity | ].
  cbn [firstByte] in H. now rewrite H.
Qed.

Lemma plus_complete (class : ascii -> bool) (rest : list ReItem) (run tail : string)
  (prev : option ascii) (r : list string * string) :
  nonEmpty run = true -> allBytes class run = true ->
  match firstByte tail with Some c => class c = false | None => True end ->
  matchItems rest (lastByteOr prev run) tail = Some r ->
  matchItems (RePlus class :: rest) prev (run +:+ tail) = Some r.
Proof.
  intros Hne Hall Hstop. revert prev.
  induction run as [|c run IH]; intros prev Hm; [discriminate | ].
  cbn [allBytes] in Hall. apply andb_true_iff in Hall as [Hc Hall].
  rewrite append_cons, matchItems_plus, Hc.
  destruct run as [|d run'].
  - rewrite append_nil_l, (plus_stops class rest (Some c) tail Hstop). exact Hm.
  - now rewrite (IH eq_refl Hall (Some c) Hm).
Qed.

Lemma take_drop (n : nat) (s : string) : takeBytes n s +:+ dropBytes n s = s.
Proof.
  revert s. induction n as [|n IH]; intros [|c s]; try reflexivity.
  cbn [takeBytes dropBytes]. rewrite append_cons. now rewrite IH.
Qed.

Lemma takeBytes_app (a b : string) : takeBytes (String.length a) (a +:+ b) = a.
Proof.
  induction a as [|c a IH]; [now destruct b | ].
  rewrite append_cons. cbn [String.length takeBytes]. now rewrite IH.
Qed.

Lemma takeClass_sound (class : ascii -> bool) (n : nat) (s group s' : string) :
  takeClass class n s = Some (group, s') ->
  s = group +:+ s' /\ String.length group = n /\ allBytes class group = true.
Proof.
  unfold takeClass.
  destruct ((String.length (takeBytes n s) =? n)%nat && allBytes class (takeBytes n s)) eqn:E;
    [ | discriminate].
  intros [= <- <-]. apply andb_true_iff in E as [E1 E2]. apply Nat.eqb_eq in E1.
  now rewrite take_drop.
Qed.

Lemma takeClass_complete (class : ascii -> bool) (group s' : string) :
  allBytes class group = true ->
  takeClass class (String.length group) (group +:+ s') = Some (group, s').
Proof.
  intros H. unfold takeClass. now rewrite takeBytes_app, dropBytes_app, Nat.eqb_refl, H.
Qed.

Lemma lastByteOr_class (class : ascii -> bool) (prev : option ascii) (s : string) :
  nonEmpty s = true -> allBytes class s = true ->
  exists d, lastByteOr prev s = Some d /\ class d = true.
Proof.
  revert prev. induction s as [|c s IH]; intros prev Hne Hall; [discriminate | ].
  cbn [allBytes] in Hall. apply andb_true_iff in Hall as [Hc Hall].
  destruct s as [|d s']; [now exists c | ]. now apply (IH (Some c)).
Qed.

Lemma space_is_no_word_byte (c : ascii) : isReSpace c = true -> isWordByte c = false.
Proof.
  destruct c as [[] [] [] [] [] [] [] []]; try reflexivity; discriminate.
Qed.

Lemma firstByte_app (a b : string) :
  nonEmpty a = true -> firstByte (a +:+ b) = firstByte a.
Proof. now destruct a. Qed.

Lemma firstByte_class (class : ascii -> bool) (s : string) :
  nonEmpty s = true -> allBytes class s = true ->
  exists c, firstByte s = Some c /\ class c = true.
Proof.
  destruct s as [|c s]; [discriminate | ]. cbn [allBytes]. intros _ H.
  apply andb_true_iff in H as [H _]. now exists c.
Qed.

Lemma digit_is_word_byte (c : ascii) : isDigitByte c = true -> isWordByte c = true.
Proof.
  intros H. unfold isWordByte, isAlnumByte. rewrite H. now rewrite !orb_true_r.
Qed.

(** A match of the bug-reference expression at the start of [s] is a word,
    white space, [b/] and nine digits, between two word boundaries. *)
Lemma bareBugRe_sound (prev : option ascii) (s : string)
  (groups : list string) (remaining : string) :
  matchItems bareBugRe prev s = Some (groups, remaining) ->
  exists word spaces id,
    s = word +:+ spaces +:+ "b/" +:+ id +:+ remaining
    /\ groups = [id]
    /\ isWordAt prev = false
    /\ nonEmpty word = true /\ allBytes isWordByte word = true
    /\ nonEmpty spaces = true /\ allBytes isReSpace spaces = true
    /\ String.length id = 9%nat /\ allBytes isDigitByte id = true
    /\ isWordAt (firstByte remaining) = false.
Proof.
  unfold bareBugRe. rewrite matchItems_boundary.
  destruct (atBoundary prev s) eqn:B1; [ | discriminate]. intros H.
  apply (plus_sound _ _ _ prev) in H as [word [tail1 [-> [Hw1 [Hw2 H]]]]].
  apply (plus_sound _ _ _ (lastByteOr prev word)) in H
    as [spaces [tail2 [-> [Hs1 [Hs2 H]]]]].
  rewrite matchItems_lit in H.
  destruct (HasPrefix tail2 "b/") eqn:P; [ | discriminate].
  apply HasPrefix_spec in P as [tail3 ->]. rewrite dropBytes_app in H.
  rewrite matchItems_capture in H.
  destruct (takeClass isDigitByte 9 tail3) as [[id s']|] eqn:T; [ | discriminate].
  apply takeClass_sound in T as [-> [Hi1 Hi2]].
  rewrite matchItems_boundary in H.
  destruct (atBoundary _ s') eqn:B2; [ | discriminate].
  cbn [matchItems] in H. injection H as <- <-.
  exists word, spaces, id. repeat split; try assumption.
  - unfold atBoundary in B1. rewrite firstByte_app in B1 by exact Hw1.
    destruct (firstByte_class isWordByte word Hw1 Hw2) as [c [Hc1 Hc2]].
    rewrite Hc1 in B1. cbn [isWordAt] in B1. rewrite Hc2 in B1.
    now destruct (isWordAt prev).
  - unfold atBoundary in B2.
    assert (Hne : nonEmpty id = true) by (destruct id; [discriminate | reflexivity]).
    destruct (lastByteOr_class isDigitByte
                (lastByteOr (lastByteOr (lastByteOr prev word) spaces) "b/") id Hne Hi2)
      as [d [Hd1 Hd2]].
    rewrite Hd1 in B2. cbn [isWordAt] in B2. rewrite (digit_is_word_byte d Hd2) in B2.
    now destruct (isWordAt (firstByte s')).
Qed.

Lemma bareBugRe_complete (prev : option ascii) (word spaces id remaining : string) :
  isWordAt prev = false ->
  nonEmpty word = true -> allBytes isWordByte word = true ->
  nonEmpty spaces = true -> allBytes isReSpace spaces = true ->
  String.length id = 9%nat -> allBytes isDigitByte id = true ->
  isWordAt (firstByte remaining) = false ->
  matchItems bareBugRe prev (word +:+ spaces +:+ "b/" +:+ id +:+ remaining)
  = Some ([id], remaining).
Proof.
  intros Hprev Hw1 Hw2 Hs1 Hs2 Hi1 Hi2 Hrem. unfold bareBugRe.
  rewrite matchItems_boundary.
  assert (B1 : atBoundary prev (word +:+ spaces +:+ "b/" +:+ id +:+ remaining) = true).
  { unfold atBoundary. rewrite firstByte_app by exact Hw1.
    destruct (firstByte_class isWordByte word Hw1 Hw2) as [c [-> Hc]].
    cbn [isWordAt]. now rewrite Hprev, Hc. }
  rewrite B1. apply plus_complete; [exact Hw1 | exact Hw2 | | ].
  { rewrite firstByte_app by exact Hs1.
    destruct (firstByte_class isReSpace spaces Hs1 Hs2) as [c [-> Hc]].
    now apply space_is_no_word_byte. }
  apply plus_complete; [exact Hs1 | exact Hs2 | reflexivity | ].
  rewrite matchItems_lit, HasPrefix_app, dropBytes_app, matchItems_capture.
  rewrite <- Hi1 at 1. rewrite takeClass_complete by exact Hi2.
  rewrite matchItems_boundary.
  assert (Hne : nonEmpty id = true) by (destruct id; [discriminate | reflexivity]).
  destruct (lastByteOr_class isDigitByte
              (lastByteOr (lastByteOr (lastByteOr prev word) spaces) "b/") id Hne Hi2)
    as [d [Hd1 Hd2]].
  unfold atBoundary. rewrite Hd1. cbn [isWordAt].
  now rewrite (digit_is_word_byte d Hd2), Hrem.
Qed.

Lemma lastByteOr_app (prev : option ascii) (a b : string) :
  lastByteOr prev (a +:+ b) = lastByteOr (lastByteOr prev a) b.
Proof.
  revert prev. induction a as [|c a IH]; intros prev; [reflexivity | ].
  rewrite append_cons. cbn [lastByteOr]. apply IH.
Qed.

Lemma searchFrom_sound (items : list ReItem) (s : string) (prev : option ascii)
  (matches : list string) :
  searchFrom items prev s = Some matches ->
  exists pre s' groups remaining,
    s = pre +:+ s'
    /\ matchItems items (lastByteOr prev pre) s' = Some (groups, remaining)
    /\ matches = takeBytes (String.length s' - String.length remaining) s' :: groups.
Proof.
  revert prev. induction s as [|c t IH]; intros prev H; cbn [searchFrom] in H.
  - destruct (matchItems items prev EmptyString) as [[groups remaining]|] eqn:E;
      [ | discriminate].
    injection H as <-. now exists EmptyString, EmptyString, groups, remaining.
  - destruct (matchItems items prev (String c t)) as [[groups remaining]|] eqn:E.
    + injection H as <-. now exists EmptyString, (String c t), groups, remaining.
    + apply IH in H as [pre [s' [groups [remaining [-> [Hm ->]]]]]].
      now exists (String c pre), s', groups, remaining.
Qed.

Lemma searchFrom_complete (items : list ReItem) (pre s' : string) (prev : option ascii)
  (r : list string * string) :
  matchItems items (lastByteOr prev pre) s' = Some r ->
  exists matches, searchFrom items prev (pre +:+ s') = Some matches.
Proof.
  revert prev. induction pre as [|c pre IH]; intros prev H.
  - rewrite append_nil_l. cbn [lastByteOr] in H.
    destruct s' as [|c t]; cbn [searchFrom]; rewrite H; destruct r; now eexists.
  - rewrite append_cons. cbn [searchFrom].
    destruct (matchItems items prev (String c (pre +:+ s'))) as [[groups remaining]|];
      [now eexists | ].
    now apply IH.
Qed.

Lemma protoLine_flags_bare_bug_fact (path : string) (lineNo : Z) (line : string) :
  (protoLine path lineNo line = []
   \/ exists pre word spaces id post,
        bareBugAt line pre word spaces id post
        /\ protoLine path lineNo line = [bareBugMsg path lineNo id])
  /\ ((exists pre word spaces id post, bareBugAt line pre word spaces id post) ->
      protoLine path lineNo line <> []).
Proof.
  unfold protoLine, FindStringSubmatch. split.
  - destruct (searchFrom bareBugRe None line) as [matches|] eqn:E; [ | now left].
    apply searchFrom_sound in E as [pre [s' [groups [remaining [-> [Hm ->]]]]]].
    apply bareBugRe_sound in Hm
      as [word [spaces [id [-> [-> [Hp [Hw1 [Hw2 [Hs1 [Hs2 [Hi1 [Hi2 Hr]]]]]]]]]]]].
    right. exists pre, word, spaces, id, remaining. split; [ | reflexivity].
    unfold bareBugAt. repeat split; assumption.
  - intros [pre [word [spaces [id [post H]]]]]. unfold bareBugAt in H.
    destruct H as [-> [Hp [Hw1 [Hw2 [Hs1 [Hs2 [Hi1 [Hi2 Hr]]]]]]]].
    pose proof (bareBugRe_complete (lastByteOr None pre) word spaces id post
                  Hp Hw1 Hw2 Hs1 Hs2 Hi1 Hi2 Hr) as Hm.
    destruct (searchFrom_complete bareBugRe pre _ None _ Hm) as [matches E].
    rewrite E.
    apply searchFrom_sound in E as [pre' [s' [groups [remaining [_ [Hm' ->]]]]]].
    apply bareBugRe_sound in Hm' as [_ [_ [id' [_ [-> _]]]]]. discriminate.
Qed.

(** X15.  A line of a [.proto] file gets at most one diagnostic, and gets one
    exactly when it holds a bare bug reference: a word, white space, [b/]
    and nine digits, the word not joined to a word byte before it and the
    digits not followed by one.  The diagnostic quotes the nine digits of
    such a reference of the line. *)
Theorem protoLine_flags_bare_bug (path : string) (lineNo : Z) (line : string) :
  (protoLine path lineNo line = []
   \/ exists pre word spaces id post,
        bareBugAt line pre word spaces id post
        /\ protoLine path lineNo line = [bareBugMsg path lineNo id])
  /\ ((exists pre word spaces id post, bareBugAt line pre word spaces id post) ->
      protoLine path lineNo line <> []).
Proof. exact (protoLine_flags_bare_bug_fact path lineNo line). Qed.

Lemma protoLines_inv (path : string) (lines : list string) (start : Z) (d : string) :
  In d (protoLines path start lines) ->
  exists i line,
    nth_error lines i = Some line /\ In d (protoLine path (start + 1 + Z.of_nat i) line).
Proof.
  revert start. induction lines as [|l rest IH]; intros start H; [contradiction | ].
  cbn [protoLines] in H. apply in_app_or in H as [H | H].
  - exists 0%nat, l. split; [reflexivity | ]. now rewrite Z.add_0_r.
  - apply IH in H as [i [line [Hnth H]]]. exists (S i), line. split; [exact Hnth | ].
    now replace (start + 1 + Z.of_nat (S i))%Z with (start + 1 + 1 + Z.of_nat i)%Z by lia.
Qed.

Lemma protoLines_nth (path : string) (lines : list string) (start : Z) (i : nat)
  (line d : string) :
  nth_error lines i = Some line ->
  In d (protoLine path (start + 1 + Z.of_nat i) line) ->
  In d (protoLines path start lines).
Proof.
  revert start i. induction lines as [|l rest IH]; intros start [|i] Hnth Hd;
    try discriminate; cbn [protoLines]; apply in_or_app.
  - injection Hnth as ->. left. now rewrite Z.add_0_r in Hd.
  - right. apply (IH (start + 1)%Z i Hnth).
    now replace (start + 1 + 1 + Z.of_nat i)%Z with (start + 1 + Z.of_nat (S i))%Z by lia.
Qed.

Lemma protoEntry_scans (entry : WalkEntry) :
  protoEntry entry
  = if isProtoFile entry
    then protoLines (Path (Visited entry)) 0 (Lines (Visited entry)) else [].
Proof.
  unfold protoEntry, isProtoFile.
  now destruct (WalkErr entry), (IsDir entry), (HasSuffix (Path (Visited entry)) ".proto").
Qed.

(** X16.  Every diagnostic of [checkProtoFiles] names a file of the walk that is
    no directory, was reached without error and has the suffix [.proto],
    a line of that file under its number counted from 1, and the nine
    digits of a bare bug reference standing on that line; and every line
    of such a file that holds a bare bug reference gets a diagnostic under
    its number. *)
Theorem checkProtoFiles_reports_bare_bugs (walked : list WalkEntry) :
  (forall d, In d (checkProtoFiles walked) ->
     exists entry i line pre word spaces id post,
       In entry walked /\ isProtoFile entry = true
       /\ nth_error (Lines (Visited entry)) i = Some line
       /\ bareBugAt line pre word spaces id post
       /\ d = bareBugMsg (Path (Visited entry)) (1 + Z.of_nat i) id)
  /\ (forall entry i line,
        In entry walked -> isProtoFile entry = true ->
        nth_error (Lines (Visited entry)) i = Some line ->
        (exists pre word spaces id post, bareBugAt line pre word spaces id post) ->
        exists id, In (bareBugMsg (Path (Visited entry)) (1 + Z.of_nat i) id)
                      (checkProtoFiles walked)).
Proof.
  unfold checkProtoFiles. split.
  - intros d H. apply in_flat_map in H as [entry [Hin H]].
    rewrite protoEntry_scans in H. destruct (isProtoFile entry) eqn:P; [ | contradiction].
    apply protoLines_inv in H as [i [line [Hnth H]]].
    replace (0 + 1 + Z.of_nat i)%Z with (1 + Z.of_nat i)%Z in H by lia.
    destruct (proj1 (protoLine_flags_bare_bug_fact (Path (Visited entry)) (1 + Z.of_nat i) line))
      as [E | [pre [word [spaces [id [post [Hbug E]]]]]]]; rewrite E in H;
      [contradiction | ].
    destruct H as [<- | []].
    now exists entry, i, line, pre, word, spaces, id, post.
  - intros entry i line Hin P Hnth Hbug.
    pose proof (proj2 (protoLine_flags_bare_bug_fact (Path (Visited entry)) (1 + Z.of_nat i) line)
                  Hbug) as Hne.
    destruct (proj1 (protoLine_flags_bare_bug_fact (Path (Visited entry)) (1 + Z.of_nat i) line))
      as [E | [pre [word [spaces [id [post [_ E]]]]]]]; [contradiction | ].
    exists id. apply in_flat_map. exists entry. split; [exact Hin | ].
    rewrite protoEntry_scans, P. apply (protoLines_nth _ _ 0 i line _ Hnth).
    replace (0 + 1 + Z.of_nat i)%Z with (1 + Z.of_nat i)%Z by lia.
    rewrite E. now left.
Qed.

(** ** Further properties: [main] *)

Lemma walkGo_concat (walked : list WalkEntry) (errs : list string) :
  walkGo walked errs = (news ← mapM entryDiagnostics walked; Some (errs ++ concat news)).
Proof.
  revert errs. induction walked as [|entry rest IH]; intros errs.
  - cbn. now rewrite app_nil_r.
  - cbn [walkGo mapM].
    assert (F : goEntry entry errs = (fun new => errs ++ new) <$> entryDiagnostics entry).
    { unfold entryDiagnostics, goEntry.
      destruct (WalkErr entry || IsDir entry || negb (HasSuffix (Path (Visited entry)) ".go"));
        [cbn; now rewrite app_nil_r | apply validateGoFile_frame]. }
    rewrite F. destruct (entryDiagnostics entry) as [new|]; [ | reflexivity].
    cbn [fmap option_fmap option_map mbind option_bind]. rewrite IH.
    destruct (mapM entryDiagnostics rest) as [news|]; [ | reflexivity].
    cbn [mbind option_bind mret option_ret concat]. now rewrite app_assoc.
Qed.

(** X17.  On a directory, [main] reports the diagnostics of the [.proto] files
    of the walk first and then those of the [.go] files, each group in the
    order of the walk and every diagnostic once: with none it prints the
    success line and exits with 0, else it prints the header and one line
    per diagnostic and exits with 1; it panics when a [.go] file does. *)
Theorem main_on_directory (program root : string) (more : list string) (w : World) :
  Stat w = StatDir ->
  main (program :: root :: more) w
  = match mapM entryDiagnostics (Walked w) with
    | Some news =>
        match checkProtoFiles (Walked w) ++ concat news with
        | [] => Exit [passedMsg] 0
        | d :: ds => Exit ("Validation failed:" :: map (fun e => " - " +:+ e) (d :: ds)) 1
        end
    | None => Panic
    end.
Proof.
  intros Hstat. unfold main. rewrite Hstat, walkGo_concat.
  destruct (mapM entryDiagnostics (Walked w)) as [news|]; [ | reflexivity].
  cbn [mbind option_bind]. unfold report.
  now destruct (checkProtoFiles (Walked w) ++ concat news).
Qed.

Lemma proto_suffix_is_not_go (root : string) :
  HasSuffix root ".proto" = true -> HasSuffix root ".go" = false.
Proof.
  intros H. apply HasSuffix_spec in H as [a ->].
  rewrite HasSuffix_app; [reflexivity | cbn; lia].
Qed.

(** X18.  Given a single [.proto] file as its root, [main] reports nothing of
    it: whatever bare bug references [checkProtoFiles] found in the file,
    it prints that the file is no [.go] file and exits with 0. *)
Theorem main_on_single_proto_file (program root : string) (more : list string) (w : World) :
  Stat w = StatFile ->
  HasSuffix root ".proto" = true ->
  main (program :: root :: more) w = Exit ["Provided file is not a .go file"] 0.
Proof.
  intros Hstat Hproto. unfold main. now rewrite Hstat, (proto_suffix_is_not_go root Hproto).
Qed.

(** X19.  [main] exits with 1 only after an analysis that found a diagnostic,
    and then prints the header and at least one diagnostic line; a missing
    argument, a path [os.Stat] rejects and a file that is no [.go] file all
    end with exit code 0 and a single printed line. *)
Theorem main_exit_code (args : list string) (w : World) (printed : list string) (code : Z) :
  main args w = Exit printed code ->
  (code = 1%Z
   /\ exists d ds, printed = "Validation failed:" :: map (fun e => " - " +:+ e) (d :: ds))
  \/ (code = 0%Z /\ length printed = 1%nat).
Proof.
  assert (R : forall errs, report errs = Exit printed code ->
              (code = 1%Z
               /\ exists d ds,
                    printed = "Validation failed:" :: map (fun e => " - " +:+ e) (d :: ds))
              \/ (code = 0%Z /\ length printed = 1%nat)).
  { intros [|d ds]; unfold report; cbn [length Nat.ltb Nat.leb]; intros [= <- <-].
    - now right.
    - left. split; [reflexivity | now exists d, ds]. }
  unfold main. destruct args as [|program [|root more]]; try (intros [= <- <-]; now right).
  destruct (Stat w).
  - intros [= <- <-]. now right.
  - destruct (HasSuffix root ".go"); [ | intros [= <- <-]; now right].
    destruct (validateGoFile _ _ _) as [errs|]; [apply R | discriminate].
  - destruct (walkGo _ _) as [errs|]; [apply R | discriminate].
Qed.

(** ** Further properties: the banned patterns *)

Lemma fmtInt_inj (a b : Z) : fmtInt a = fmtInt b -> a = b.
Proof.
  unfold fmtInt. intros H.
  assert (N : forall z, Z.to_int z <> Decimal.Pos Decimal.Nil
                        /\ Z.to_int z <> Decimal.Neg Decimal.Nil).
  { intros [|p|p]; split; cbn; try discriminate; intros [= E];
      now apply DecimalPos.Unsigned.to_uint_nonnil in E. }
  apply (f_equal NilZero.int_of_string) in H.
  rewrite !NilZero.isi in H by apply N.
  injection H as H. now apply DecimalZ.to_int_inj.
Qed.

Lemma located_line_inj (path : string) (n m : Z) (msg : string) :
  located path n msg = located path m msg -> n = m.
Proof.
  unfold located. intros H. do 2 apply append_inv_head in H.
  rewrite <- !append_assoc in H. do 2 apply append_inv_tail in H.
  now apply fmtInt_inj.
Qed.

(** The suffix test of a message of the scan. *)
Ltac suffix_of_scan_msg :=
  unfold sleepMsg, cfgpluginMsg, concatMsg, capitalizedMsg, periodMsg,
    logArgsMsg, logfArgsMsg, located;
  rewrite <- ?append_assoc;
  rewrite HasSuffix_app by (cbn; lia);
  reflexivity.

Ltac scan_clash suf :=
  match goal with
  | H : ?a = ?b |- _ =>
      exfalso;
      first [ apply (differ_by_suffix a b suf) in H;
              [exact H | suffix_of_scan_msg | suffix_of_scan_msg]
            | apply eq_sym in H;
              apply (differ_by_suffix b a suf) in H;
              [exact H | suffix_of_scan_msg | suffix_of_scan_msg] ]
  end.

Lemma sleep_in_scanLine (path : string) (n m : Z) (line : string) :
  In (sleepMsg path n) (scanLine path m line)
  <-> n = m /\ Contains line "time.Sleep(" = true.
Proof.
  unfold scanLine. split.
  - intros H. apply in_app_or in H as [H | H].
    + destruct (Contains line "time.Sleep("); [ | contradiction].
      destruct H as [H | []]. apply located_line_inj in H. now split.
    + unfold errorStringRule, logRule in H. cbv zeta in H.
      one_of_the_rules H; scan_clash "gnmi.Watch".
  - intros [-> ->]. now left.
Qed.

Lemma concat_in_scanLine (path : string) (n m : Z) (line : string) :
  In (concatMsg path n) (scanLine path m line)
  <-> n = m /\ Contains line concatToken = true.
Proof.
  unfold scanLine. split.
  - intros H. apply in_app_or in H as [H | H];
      [ | apply in_app_or in H as [H | H]; [ | apply in_app_or in H as [H | H]]].
    + one_of_the_rules H; scan_clash "strings.Builder".
    + one_of_the_rules H; scan_clash "strings.Builder".
    + destruct (Contains line concatToken); [ | contradiction].
      destruct H as [H | []]. apply located_line_inj in H. now split.
    + unfold errorStringRule, logRule in H. cbv zeta in H.
      one_of_the_rules H; scan_clash "strings.Builder".
  - intros [-> ->]. apply in_or_app. right. apply in_or_app. right. now left.
Qed.

Lemma cfgplugin_in_scanLine (path : string) (n m : Z) (line : string) :
  In (cfgpluginMsg path n) (scanLine path m line)
  <-> n = m
      /\ Contains path "cfgplugins" = true
      /\ Contains line "func" = true /\ Contains line "{" = true
      /\ Contains line "gnmi.SetRequest" = false /\ Contains line "gnmi.Batch" = false.
Proof.
  unfold scanLine. split.
  - intros H. apply in_app_or in H as [H | H]; [ | apply in_app_or in H as [H | H]].
    + one_of_the_rules H; scan_clash "SetRequest".
    + destruct (Contains path "cfgplugins"), (Contains line "func"), (Contains line "{");
        try contradiction.
      destruct (Contains line "gnmi.SetRequest"), (Contains line "gnmi.Batch");
        try contradiction.
      destruct H as [H | []]. apply located_line_inj in H. subst m. now repeat split.
    + unfold errorStringRule, logRule in H. cbv zeta in H.
      one_of_the_rules H; scan_clash "SetRequest".
  - intros [-> [-> [-> [-> [-> ->]]]]]. apply in_or_app. right. apply in_or_app.
    left. cbn [andb negb]. now left.
Qed.

(** X20.  The three banned-pattern diagnostics of the scan are exact: line [n]
    of a file is reported for [time.Sleep] exactly when it holds
    [time.Sleep(], for string concatenation exactly when it holds the
    token quote-space-plus-space-quote, and as a cfgplugin function
    exactly when the path holds "cfgplugins" and the line holds "func" and
    an opening brace but neither "gnmi.SetRequest" nor "gnmi.Batch". *)
Theorem banned_patterns_exact (path : string) (lines : list string) (i : nat) (line : string) :
  nth_error lines i = Some line ->
  (In (sleepMsg path (1 + Z.of_nat i)) (scanFileForPatterns path lines)
   <-> Contains line "time.Sleep(" = true)
  /\ (In (concatMsg path (1 + Z.of_nat i)) (scanFileForPatterns path lines)
      <-> Contains line concatToken = true)
  /\ (In (cfgpluginMsg path (1 + Z.of_nat i)) (scanFileForPatterns path lines)
      <-> Contains path "cfgplugins" = true
          /\ Contains line "func" = true /\ Contains line "{" = true
          /\ Contains line "gnmi.SetRequest" = false /\ Contains line "gnmi.Batch" = false).
Proof.
  intros Hnth.
  assert (Same : forall j line', nth_error lines j = Some line' ->
                 (1 + Z.of_nat j)%Z = (1 + Z.of_nat i)%Z -> line' = line).
  { intros j line' Hj E. assert (j = i) by lia. subst j. congruence. }
  split; [ | split]; rewrite scanFileForPatterns_lines_fact; split.
  - intros [j [line' [Hj [_ [H _]]]]]. apply sleep_in_scanLine in H as [E H].
    now rewrite <- (Same j line' Hj (eq_sym E)).
  - intros H. exists i, line. split; [exact Hnth | ]. split.
    + apply nth_error_Some. congruence.
    + split; [now apply sleep_in_scanLine | ]. unfold sleepMsg. now eexists.
  - intros [j [line' [Hj [_ [H _]]]]]. apply concat_in_scanLine in H as [E H].
    now rewrite <- (Same j line' Hj (eq_sym E)).
  - intros H. exists i, line. split; [exact Hnth | ]. split.
    + apply nth_error_Some. congruence.
    + split; [now apply concat_in_scanLine | ]. unfold concatMsg. now eexists.
  - intros [j [line' [Hj [_ [H _]]]]]. apply cfgplugin_in_scanLine in H as [E H].
    now rewrite <- (Same j line' Hj (eq_sym E)).
  - intros H. exists i, line. split; [exact Hnth | ]. split.
    + apply nth_error_Some. congruence.
    + split; [now apply cfgplugin_in_scanLine | ]. unfold cfgpluginMsg. now eexists.
Qed.

(** ** Further properties: names the MixedCaps check accepts *)

Lemma alnum_not_snake (name : string) :
  allBytes isAlnumByte name = true -> snakeCase name = false.
Proof.
  intros H. destruct (snakeCase name) eqn:E; [ | reflexivity].
  apply snakeCase_not_alnum in E. congruence.
Qed.

Lemma non_ascii_no_letter (c : ascii) :
  isASCII c = false -> isUpperByte c = false /\ isLowerByte c = false.
Proof.
  unfold isASCII, isUpperByte, isLowerByte. intros A. apply Nat.ltb_ge in A.
  split; apply andb_false_iff; right; apply Nat.leb_gt; lia.
Qed.

(** X21.  The MixedCaps check has nothing to say about a function name exactly
    when the name starts with an ASCII letter, goes on with ASCII letters
    and digits only, and holds none of "Id", "Url" and "Http".  A name
    with a byte outside ASCII is always reported. *)
Theorem mixedCapsFunc_clean_iff (path : string) (fset : FileSet) (fn : FuncDecl) :
  mixedCapsFunc path fset fn = []
  <-> exists c rest,
        Name (FuncName fn) = String c rest
        /\ isLetterByte c = true
        /\ allBytes isAlnumByte rest = true
        /\ badAcronyms (Name (FuncName fn)) = false.
Proof.
  unfold mixedCapsFunc. destruct (Name (FuncName fn)) as [|c rest] eqn:E.
  - cbn. split; [discriminate | intros [c [rest [[=] _]]]].
  - split.
    + intros H. apply app_eq_nil in H as [H1 H]. apply app_eq_nil in H as [H2 H3].
      exists c, rest. split; [reflexivity | ].
      destruct (badAcronyms (String c rest)); [discriminate | ].
      unfold IsExported, exportedMixedCaps, unexportedMixedCaps, isLetterByte in *.
      destruct (isASCII c) eqn:A.
      * destruct (isUpperByte c) eqn:U.
        -- cbn [andb] in H2. destruct (allBytes isAlnumByte rest); [ | discriminate].
           now rewrite orb_true_r.
        -- destruct (isLowerByte c); cbn [andb negb] in H2; [ | discriminate].
           destruct (allBytes isAlnumByte rest); [ | discriminate]. now split.
      * destruct (non_ascii_no_letter c A) as [U L]. rewrite U, L in H2.
        destruct (unicodeIsUpper (String c rest)); discriminate.
    + intros [c' [rest' [[= <- <-] [Hc [Hrest Hbad]]]]].
      assert (Hall : allBytes isAlnumByte (String c rest) = true).
      { cbn [allBytes]. rewrite Hrest, andb_true_r. unfold isAlnumByte.
        unfold isLetterByte in Hc. apply orb_true_iff in Hc as [-> | ->];
          now rewrite ?orb_true_r. }
      rewrite (alnum_not_snake _ Hall), Hbad.
      unfold IsExported, exportedMixedCaps, unexportedMixedCaps. rewrite Hrest.
      assert (A : isASCII c = true).
      { unfold isLetterByte, isLowerByte, isUpperByte, isASCII in *.
        apply Nat.ltb_lt.
        apply orb_true_iff in Hc as [Hc | Hc]; apply andb_true_iff in Hc as [_ Hc];
          apply Nat.leb_le in Hc; lia. }
      rewrite A. destruct (isUpperByte c) eqn:U; [reflexivity | ].
      unfold isLetterByte in Hc. rewrite U, orb_false_r in Hc. now rewrite Hc.
Qed.

(** ** The exported-doc rule in the output of a run *)
















End Linter.

(** ** The properties at sample inputs *)

(** C1, as stated, fails: the first raw line of the rejected file holds a
    blocking sleep, which the scan would report, but the run reports the
    parse failure only. *)
Lemma C1_counterexample :
  Parse malformedFile = None
  /\ In (sleepMsg "bad.go" 1) (scanFileForPatterns "bad.go" (Lines malformedFile))
  /\ validateGoFile noUpper keepCase noExprString malformedFile [] []
     = Some [parseFailureMsg "bad.go"]
  /\ ~ In (sleepMsg "bad.go" 1) [parseFailureMsg "bad.go"].
Proof.
  split; [reflexivity | ]. split; [now left | ]. split; [reflexivity | ].
  intros [H | []]. discriminate.
Qed.

Lemma C1_witness :
  Parse malformedFile = None
  /\ validateGoFile noUpper keepCase noExprString malformedFile [] []
     = Some [parseFailureMsg "bad.go"]
  /\ validateFiles noUpper keepCase noExprString
       ([(snakeFile, [maxSize; minSize])] ++ (malformedFile, []) :: [(twoTestsFile, [])]) []
     = (errs' ← validateFiles noUpper keepCase noExprString [(snakeFile, [maxSize; minSize])] [];
        validateFiles noUpper keepCase noExprString [(twoTestsFile, [])]
          (errs' ++ [parseFailureMsg "bad.go"])).
Proof.
  split; [reflexivity | ].
  exact (C1_parse_failure_yields_one_diagnostic noUpper keepCase noExprString
           malformedFile [] [] [(snakeFile, [maxSize; minSize])] [(twoTestsFile, [])] eq_refl).
Defined.



(** The two orders of the two-entry scope map give the same diagnostics,
    the two of the scope loop in different orders. *)
Lemma C5_witness :
  validOrder snakeFile [maxSize; minSize]
  /\ validOrder snakeFile [minSize; maxSize]
  /\ validateGoFile noUpper keepCase noExprString snakeFile [maxSize; minSize] []
     = Some [underscoreMsg "s.go" 2 "max_size"; underscoreMsg "s.go" 3 "min_size";
             snakeCaseMsg "s.go" 0 "variable" "max_size";
             snakeCaseMsg "s.go" 0 "variable" "min_size"]
  /\ validateGoFile noUpper keepCase noExprString snakeFile [minSize; maxSize] []
     = Some [underscoreMsg "s.go" 3 "min_size"; underscoreMsg "s.go" 2 "max_size";
             snakeCaseMsg "s.go" 0 "variable" "max_size";
             snakeCaseMsg "s.go" 0 "variable" "min_size"]
  /\ option_Forall2 (≡ₚ)
       (validateGoFile noUpper keepCase noExprString snakeFile [maxSize; minSize] [])
       (validateGoFile noUpper keepCase noExprString snakeFile [minSize; maxSize] []).
Proof.
  assert (H1 : validOrder snakeFile [maxSize; minSize]).
  { unfold validOrder, rangeOrder. vm_compute. first [reflexivity | apply perm_swap]. }
  assert (H2 : validOrder snakeFile [minSize; maxSize]).
  { unfold validOrder, rangeOrder. vm_compute. first [reflexivity | apply perm_swap]. }
  split; [exact H1 | ]. split; [exact H2 | ].
  split; [reflexivity | ]. split; [reflexivity | ].
  exact (C5_two_runs_same_diagnostics noUpper keepCase noExprString snakeFile
           [maxSize; minSize] [minSize; maxSize] [] H1 H2).
Defined.

(** [CandidIdea] is flagged for the "Id" in its middle; [Client] is not
    flagged; [baseUrl] is. *)
Lemma C6_witness :
  In (funcAcronymMsg "x.go" 0 "CandidIdea") (checkMixedCaps noUpper "x.go" namesTree)
  /\ ~ In (acronymMsg "x.go" 0 "type" "Client") (checkMixedCaps noUpper "x.go" namesTree)
  /\ In (acronymMsg "x.go" 0 "variable" "baseUrl") (checkMixedCaps noUpper "x.go" namesTree).
Proof.
  destruct (C6_acronym_flagged_iff_substring noUpper "x.go" namesTree) as [Hf [Ht Hv]].
  split; [ | split].
  - apply (Hf {| Doc := None; Recv := None; FuncName := ident "CandidIdea";
                 FuncPos := 11%Z; Params := Some []; Body := Some [] |}).
    + now left.
    + exists "Candid", "ea". now left.
  - intros H.
    apply (Ht TYPE [TypeSpec {| Name := "Client"; NamePos := 21%Z |} (StructType [])]
              {| Name := "Client"; NamePos := 21%Z |} (StructType [])) in H.
    + apply badAcronyms_spec in H. discriminate.
    + right. now left.
    + now left.
  - apply (Hv VAR [ValueSpec [{| Name := "baseUrl"; NamePos := 31%Z |}] None [BasicLit "x"]]
              [{| Name := "baseUrl"; NamePos := 31%Z |}] None [BasicLit "x"]
              {| Name := "baseUrl"; NamePos := 31%Z |}).
    + right. right. now left.
    + now left.
    + now left.
    + exists "base", "". right. now left.
Defined.

(** C7, as stated, fails: [func pair(a, b int)] has two parameters whose
    type is neither exempt nor a struct, and is not flagged. *)
Lemma C7_counterexample :
  (1 < remainingParameters (paramList pairFn))%nat
  /\ checkStructParameterUsage "x.go" pairFn sampleFileSet = []
  /\ ~ (In (structParamMsg "x.go" 1 "pair") (checkStructParameterUsage "x.go" pairFn sampleFileSet)
        <-> (1 < remainingParameters (paramList pairFn))%nat).
Proof.
  split; [cbn; lia | ]. split; [reflexivity | ].
  intros [_ H]. apply H. cbn. lia.
Qed.

Lemma C7_witness :
  In (structParamMsg "x.go" 1 "two") (checkStructParameterUsage "x.go" twoFn sampleFileSet)
  /\ checkStructParameterUsage "x.go" pairFn sampleFileSet = [].
Proof.
  destruct (C7_flagged_iff_two_counted_entries "x.go" twoFn sampleFileSet) as [Htwo _].
  destruct (C7_flagged_iff_two_counted_entries "x.go" pairFn sampleFileSet) as [_ [Hpair _]].
  split.
  - apply Htwo. cbn. lia.
  - destruct Hpair as [H | H]; [cbn in H; lia | exact H].
Defined.

(** [CandidIdea] is declared on line 2 and reported on line 0. *)
Lemma C8_witness :
  PositionLine sampleFileSet 11%Z = 2%Z
  /\ In (funcAcronymMsg "x.go" 0 "CandidIdea") (checkMixedCaps noUpper "x.go" namesTree)
  /\ exists msg, funcAcronymMsg "x.go" 0 "CandidIdea" = "x.go" +:+ ":0: " +:+ msg.
Proof.
  split; [reflexivity | ].
  assert (H : In (funcAcronymMsg "x.go" 0 "CandidIdea")
                 (checkMixedCaps noUpper "x.go" namesTree)) by now left.
  split; [exact H | ].
  exact (C8_mixed_caps_reports_line_zero noUpper "x.go" namesTree _ H).
Defined.

(** With [t *mypkg.T] in front, [func helper(t *mypkg.T, n int)] is
    treated as [func helper(n int)]. *)
Lemma C9_witness :
  isAllowedParam (StarExpr (SelectorExpr (IdentExpr (ident "mypkg")) (ident "T"))) = true
  /\ checkStructParameterUsage "x.go" otherPackageFn sampleFileSet
     = checkStructParameterUsage "x.go"
         (withParams otherPackageFn [mkField [ident "n"] (IdentExpr (ident "int"))])
         sampleFileSet.
Proof.
  destruct (C9_exemption_ignores_package "x.go" otherPackageFn sampleFileSet
              [] [mkField [ident "n"] (IdentExpr (ident "int"))] [ident "t"]
              (IdentExpr (ident "mypkg")) (ident "T") (or_introl eq_refl))
    as [Hallowed [_ Hsame]].
  split; [exact Hallowed | exact Hsame].
Defined.

(** C10, as stated, fails: the literal of [arrowLine] starts with the
    arrow U+2192, which is no letter, and no diagnostic is emitted; its
    first byte alone is not valid UTF-8, and what [strings.ToUpper] makes
    of it is not a prefix of the literal. *)
Lemma C10_counterexample :
  Contains arrowLine "t.Error(" = true
  /\ extractStringLiteral arrowLine = bytes [226; 134; 146] +:+ " bad"
  /\ scanFileForPatterns "a_test.go" [arrowLine] = []
  /\ ~ In (capitalizedMsg "a_test.go" 1) (scanFileForPatterns "a_test.go" [arrowLine]).
Proof.
  split; [reflexivity | ]. split; [reflexivity | ]. split; [reflexivity | ].
  intros [].
Qed.

Lemma C10_witness :
  nth_error [arrowLine; digitLine] 1 = Some digitLine
  /\ Contains digitLine "t.Error(" = true
  /\ extractStringLiteral digitLine = "404 not found"
  /\ isASCII "4" = true
  /\ isLetterByte "4" = false
  /\ In (capitalizedMsg "a_test.go" 2) (scanFileForPatterns "a_test.go" [arrowLine; digitLine]).
Proof.
  repeat (split; [reflexivity | ]).
  exact (C10_ascii_non_letter_is_flagged "a_test.go" [arrowLine; digitLine] 1 digitLine
           "4" "04 not found" eq_refl (or_introl eq_refl) eq_refl eq_refl eq_refl).
Defined.

(** ** The doc rule at sample inputs *)



(** ** The further properties at sample inputs *)

Lemma validateGoFile_panics_witness :
  validateGoFile noUpper keepCase noExprString bodylessFile [] [] = None.
Proof.
  apply (validateGoFile_panics_iff noUpper keepCase noExprString bodylessFile [] []).
  eexists _, _, _. split; [reflexivity | ]. split; [now left | reflexivity].
Defined.

Lemma extractStringLiteral_witness :
  allBytes isNoQuote "return fmt.Errorf(" = true
  /\ allBytes isLiteralByte "bad input" = true
  /\ extractStringLiteral
       ("return fmt.Errorf(" +:+ String dquote ("bad input" +:+ String dquote ")"))
     = "bad input".
Proof.
  split; [reflexivity | ]. split; [reflexivity | ].
  exact (proj1 (extractStringLiteral_first_literal "return fmt.Errorf(" "bad input" ")"
                  eq_refl) eq_refl).
Defined.

Lemma errorStringRule_witness :
  allBytes isNoQuote "return fmt.Errorf(" = true
  /\ allBytes isLiteralByte "Bad input." = true
  /\ errorStringRule "a.go" 7
       ("return fmt.Errorf(" +:+ String dquote ("Bad input." +:+ String dquote ")"))
     = [capitalizedMsg "a.go" 7; periodMsg "a.go" 7].
Proof.
  split; [reflexivity | ]. split; [reflexivity | ].
  exact (errorStringRule_spec "a.go" 7 "return fmt.Errorf(" ")" "ad input." "B"
           eq_refl eq_refl).
Defined.

Lemma underscore_name_witness :
  In (FuncDeclD getValueFn) (Decls getValueTree)
  /\ snakeCase "get_value" = true
  /\ In (snakeCaseMsg "x.go" 0 "function" "get_value")
        (checkMixedCaps noUpper "x.go" getValueTree)
  /\ In (mixedCapsMsg "x.go" 0 "unexported function" "get_value" "mixedCaps")
        (checkMixedCaps noUpper "x.go" getValueTree).
Proof.
  split; [now left | ]. split; [reflexivity | ].
  exact (underscore_name_reported_twice noUpper "x.go" getValueTree getValueFn
           (or_introl eq_refl) eq_refl).
Defined.

Lemma reports_own_path_witness :
  validateGoFile noUpper keepCase noExprString twoTestsFile [] []
  = Some [ missingTestMainMsg "a_test.go"; multipleTestsMsg "a_test.go";
           notTableDrivenMsg "a_test.go" "TestAlpha" ]
  /\ exists rest, multipleTestsMsg "a_test.go" = "a_test.go" +:+ ":" +:+ rest.
Proof.
  split; [reflexivity | ].
  exact (validateGoFile_reports_own_path noUpper keepCase noExprString twoTestsFile [] _
           (multipleTestsMsg "a_test.go") eq_refl (or_intror (or_introl eq_refl))).
Defined.

Lemma logRule_witness :
  HasSuffix "a_test.go" "_test.go" = true
  /\ Contains twoLogArgs newline = false
  /\ logRule "a_test.go" 3 ("  " +:+ "t.Log(" +:+ twoLogArgs +:+ ")" +:+ " ")
     = [logArgsMsg "a_test.go" 3 ("t.Log(" +:+ twoLogArgs +:+ ")")]
  /\ logRule "a_test.go" 3 ("  " +:+ "t.Logf(" +:+ twoLogArgs +:+ ")" +:+ " ") = [].
Proof.
  split; [reflexivity | ]. split; [reflexivity | ].
  exact (logRule_spec "a_test.go" 3 "  " twoLogArgs " " eq_refl eq_refl eq_refl eq_refl).
Defined.

Lemma commaOutsideQuotes_witness :
  allBytes isNoQuote "a, b" = true
  /\ commaOutsideQuotes false (String dquote ("a, b" +:+ String dquote ")"))
     = commaOutsideQuotes false ")".
Proof.
  split; [reflexivity | ].
  exact (commaOutsideQuotes_skips_literal "a, b" ")" eq_refl).
Defined.

(** [var userString string] repeats its type; so does [var pointer int]. *)
Lemma repeatsTypeName_witness :
  allASCII "userString" = true /\ allASCII "string" = true
  /\ In (repeatsTypeMsg "x.go" 2 "userString" "string")
        (repeatsTypeName keepCase "x.go" sampleFileSet "string"
           {| Name := "userString"; NamePos := 11%Z |})
  /\ In (repeatsTypeMsg "x.go" 2 "pointer" "int")
        (repeatsTypeName keepCase "x.go" sampleFileSet "int"
           {| Name := "pointer"; NamePos := 11%Z |}).
Proof.
  split; [reflexivity | ]. split; [reflexivity | ]. split.
  - apply (repeatsTypeName_ascii_iff keepCase "x.go" sampleFileSet "string"
             {| Name := "userString"; NamePos := 11%Z |} eq_refl eq_refl).
    now exists "user", "String", "".
  - apply (repeatsTypeName_ascii_iff keepCase "x.go" sampleFileSet "int"
             {| Name := "pointer"; NamePos := 11%Z |} eq_refl eq_refl).
    now exists "po", "int", "er".
Defined.

Lemma helperRule_witness :
  isHelperCandidate "h_test.go" helperFn = true
  /\ findTName (paramList helperFn) = "t"
  /\ helperRule "h_test.go" 2 helperFn = Some [].
Proof.
  split; [reflexivity | ]. split; [reflexivity | ].
  exact (proj1 (helperRule_call_suffices "h_test.go" 2 helperFn _ (ident "t")
                  (ident "Helper") [] eq_refl eq_refl eq_refl eq_refl)
           eq_refl (or_introl eq_refl)).
Defined.

Lemma main_on_directory_witness :
  Stat dirWorld = StatDir
  /\ main noUpper keepCase noExprString ["lint"; "d"] dirWorld
     = Exit [ "Validation failed:";
              " - " +:+ bareBugMsg "d/api.proto" 2 "123456789";
              " - " +:+ parseFailureMsg "d/bad.go" ] 1.
Proof.
  split; [reflexivity | ].
  exact (main_on_directory noUpper keepCase noExprString "lint" "d" [] dirWorld eq_refl).
Defined.

Lemma main_on_single_proto_file_witness :
  Stat protoWorld = StatFile
  /\ HasSuffix "d/api.proto" ".proto" = true
  /\ checkProtoFiles (Walked protoWorld) = [bareBugMsg "d/api.proto" 2 "123456789"]
  /\ main noUpper keepCase noExprString ["lint"; "d/api.proto"] protoWorld
     = Exit ["Provided file is not a .go file"] 0.
Proof.
  split; [reflexivity | ]. split; [reflexivity | ]. split; [reflexivity | ].
  exact (main_on_single_proto_file noUpper keepCase noExprString "lint" "d/api.proto" []
           protoWorld eq_refl eq_refl).
Defined.

Lemma main_exit_code_witness :
  main noUpper keepCase noExprString ["lint"; "d"] dirWorld
  = Exit [ "Validation failed:";
           " - " +:+ bareBugMsg "d/api.proto" 2 "123456789";
           " - " +:+ parseFailureMsg "d/bad.go" ] 1
  /\ ((1 = 1)%Z
      /\ (exists d ds,
            [ "Validation failed:";
              " - " +:+ bareBugMsg "d/api.proto" 2 "123456789";
              " - " +:+ parseFailureMsg "d/bad.go" ]
            = "Validation failed:" :: map (fun e => " - " +:+ e) (d :: ds))
      \/ (1 = 0)%Z /\ length [ "Validation failed:";
                               " - " +:+ bareBugMsg "d/api.proto" 2 "123456789";
                               " - " +:+ parseFailureMsg "d/bad.go" ] = 1%nat).
Proof.
  split; [reflexivity | ].
  exact (main_exit_code noUpper keepCase noExprString ["lint"; "d"] dirWorld _ 1 eq_refl).
Defined.

Lemma banned_patterns_witness :
  nth_error ["x := 1"; "time.Sleep(1)"] 1 = Some "time.Sleep(1)"
  /\ In (sleepMsg "a.go" 2) (scanFileForPatterns "a.go" ["x := 1"; "time.Sleep(1)"]).
Proof.
  split; [reflexivity | ].
  apply (proj1 (banned_patterns_exact "a.go" ["x := 1"; "time.Sleep(1)"] 1 "time.Sleep(1)"
                  eq_refl)).
  reflexivity.
Defined.
